(** * gologic/components: the declarative field validator

    A shallow embedding of [validator/validator.go] and a verification of
    its evaluation engine, rule parser and message builder.

    Go strings are byte sequences, so they are embedded as [string]
    (a list of [ascii] bytes) and [len] is [String.length].  Go maps are
    embedded as [gmap]s, slices as [list]s.  A run-time panic (the Go
    run time raises one for an index out of range) is embedded by the
    [outcome] type. *)

From stdpp Require Import base option list strings gmap fin_maps.
From Stdlib Require Import Ascii String ZArith Lia.

Open Scope string_scope.
Open Scope Z_scope.
Open Scope nat_scope.

(** ** Panics *)

Inductive panic : Type :=
  | IndexOutOfRange (index len : nat)  (* runtime error: index out of range [index] with length len *)
  | CustomPanic (value : string).     (* panic(value) raised by a registered predicate *)

Inductive outcome (A : Type) : Type :=
  | Ok (a : A)
  | Panic (p : panic).
Arguments Ok {A} a.
Arguments Panic {A} p.

#[global] Instance outcome_ret : MRet outcome := fun A a => Ok a.
#[global] Instance outcome_bind : MBind outcome := fun A B k m =>
  match m with
  | Ok a => k a
  | Panic p => Panic p
  end.

Definition returned {A : Type} (m : outcome A) : Prop := exists a, m = Ok a.

(** [s[i]] on a slice: the run time checks the bound. *)
Definition index {A : Type} (s : list A) (i : nat) : outcome A :=
  match s !! i with
  | Some x => Ok x
  | None => Panic (IndexOutOfRange i (List.length s))
  end.

(** [v, ok := m[k]] on a [map[string]string]: the zero value and [false]
    when the key is absent. *)
Definition comma_ok (m : gmap string string) (k : string) : string * bool :=
  match m !! k with
  | Some v => (v, true)
  | None => ("", false)
  end.

(** [s[:high]] and [s[low:]] on a string: the run time checks the bound. *)
Definition slice_to (s : string) (high : Z) : outcome string :=
  if ((0 <=? high) && (high <=? Z.of_nat (String.length s)))%Z
  then Ok (String.substring 0 (Z.to_nat high) s)
  else Panic (CustomPanic "slice bounds out of range").

Definition slice_from (s : string) (low : Z) : outcome string :=
  if ((0 <=? low) && (low <=? Z.of_nat (String.length s)))%Z
  then Ok (String.substring (Z.to_nat low) (String.length s - Z.to_nat low) s)
  else Panic (CustomPanic "slice bounds out of range").

(** ** The part of the Go standard library the validator calls *)

Module strings.

(** [strings.Split(s, sep)] for a one-byte separator; the validator
    only passes the literals "|", ":" and ",". *)
Fixpoint Split (s : string) (sep : ascii) : list string :=
  match s with
  | EmptyString => [EmptyString]
  | String c s' =>
      if Ascii.eqb c sep then EmptyString :: Split s' sep
      else match Split s' sep with
           | [] => [String c EmptyString]
           | w :: ws => String c w :: ws
           end
  end.

Fixpoint HasPrefix (s prefix : string) {struct prefix} : bool :=
  match prefix, s with
  | EmptyString, _ => true
  | String p prefix', String c s' => Ascii.eqb c p && HasPrefix s' prefix'
  | String _ _, EmptyString => false
  end.

Fixpoint drop (n : nat) (s : string) : string :=
  match n, s with
  | S n', String _ s' => drop n' s'
  | _, _ => s
  end.

Definition TrimPrefix (s prefix : string) : string :=
  if HasPrefix s prefix then drop (String.length prefix) s else s.

(** [strings.Count(s, substr)] for a non-empty [substr]: the number of
    non-overlapping instances, found left to right.  [skip] is the number
    of bytes still covered by the instance just counted. *)
Fixpoint Count_from (skip : nat) (s substr : string) : nat :=
  match s with
  | EmptyString => 0
  | String _ s' =>
      match skip with
      | S k => Count_from k s' substr
      | O => if HasPrefix s substr
             then S (Count_from (String.length substr - 1) s' substr)
             else Count_from 0 s' substr
      end
  end.

Definition Count (s substr : string) : nat := Count_from 0 s substr.

(** [strings.Index(s, substr)] for a one-byte [substr]: the index of its
    first instance, or -1. *)
Fixpoint Index (s : string) (sep : ascii) : Z :=
  match s with
  | EmptyString => (-1)%Z
  | String c s' =>
      if Ascii.eqb c sep then 0%Z
      else let i := Index s' sep in
           if (i <? 0)%Z then (-1)%Z else (i + 1)%Z
  end.

Fixpoint TrimLeft (s : string) (cut : ascii) : string :=
  match s with
  | EmptyString => EmptyString
  | String c s' => if Ascii.eqb c cut then TrimLeft s' cut else s
  end.

Fixpoint TrimRight (s : string) (cut : ascii) : string :=
  match s with
  | EmptyString => EmptyString
  | String c s' =>
      match TrimRight s' cut with
      | EmptyString => if Ascii.eqb c cut then EmptyString else String c EmptyString
      | t => String c t
      end
  end.

(** [strings.Trim(s, cutset)] for a one-byte [cutset]. *)
Definition Trim (s : string) (cut : ascii) : string :=
  TrimLeft (TrimRight s cut) cut.

End strings.

Module strconv.

Definition is_digit (c : ascii) : bool :=
  (48 <=? nat_of_ascii c) && (nat_of_ascii c <=? 57).

Fixpoint all_digits (s : string) : bool :=
  match s with
  | EmptyString => true
  | String c s' => is_digit c && all_digits s'
  end.

Fixpoint decimal (acc : Z) (s : string) : Z :=
  match s with
  | EmptyString => acc
  | String c s' => decimal (10 * acc + Z.of_nat (nat_of_ascii c - 48)) s'
  end.

(** [strconv.ParseInt(s, 10, bitSize)]: [None] stands for a non-nil
    error (syntax or range). *)
Definition ParseInt10 (s : string) (bitSize : nat) : option Z :=
  let cutoff := (2 ^ (Z.of_nat bitSize - 1))%Z in
  let '(neg, digits) :=
    match s with
    | String "+" d => (false, d)
    | String "-" d => (true, d)
    | _ => (false, s)
    end in
  match digits with
  | EmptyString => None
  | _ =>
      if all_digits digits then
        let un := decimal 0 digits in
        if neg then (if (un <=? cutoff)%Z then Some (- un)%Z else None)
        else (if (un <? cutoff)%Z then Some un else None)
      else None
  end.

(** [strconv.ParseBool]: [true] when the error is nil. *)
Definition ParseBool_ok (s : string) : bool :=
  bool_decide (s ∈ ["1"; "t"; "T"; "TRUE"; "true"; "True";
                    "0"; "f"; "F"; "FALSE"; "false"; "False"]).

End strconv.

(** What the validator uses from [regexp], [strconv], [net], [time],
    [strings] and [fmt] beyond the functions embedded above.  These are
    Go library functions, not code of this repository; the development is
    parametric in them. *)
Record GoLib : Type := {
  (** [strings.ToLower] *)
  strings_ToLower : string -> string;
  (** [regexp.Compile(pattern)] returns a nil error *)
  regexp_Compile_ok : string -> bool;
  (** [rx.MatchString(value)] for the expression compiled from a pattern *)
  regexp_MatchString : string -> string -> bool;
  (** [float64] with [<=] and [==] *)
  float64 : Type;
  float64_le : float64 -> float64 -> bool;
  float64_eq : float64 -> float64 -> bool;
  (** [strconv.ParseFloat(s, bitSize)]: [None] stands for a non-nil error *)
  strconv_ParseFloat : string -> nat -> option float64;
  (** [time.Parse(layout, value)] returns a nil error *)
  time_Parse_ok : string -> string -> bool;
  (** [net.ParseIP(s) != nil] *)
  net_ParseIP_ok : string -> bool;
  (** [net.LookupHost(host)] returns a nil error *)
  net_LookupHost_ok : string -> bool;
  (** the rest of the output of [fmt.Sprintf] from a directive other than
      [%s] and [%%] on: the format after the percent sign, all the
      operands, and the number of operands consumed so far *)
  fmt_directive : string -> list string -> nat -> string
}.

Module fmt.

(** The trailing ["%!(EXTRA string=a, string=b)"] for unused operands. *)
Fixpoint extra_operands (rest : list string) : string :=
  match rest with
  | [] => ""
  | [x] => "string=" +:+ x
  | x :: rest' => "string=" +:+ x +:+ ", " +:+ extra_operands rest'
  end.

Definition extra (a : list string) (argNum : nat) : string :=
  match List.skipn argNum a with
  | [] => ""
  | rest => "%!(EXTRA " +:+ extra_operands rest +:+ ")"
  end.

(** [doPrintf] on string operands.  Plain bytes are copied; [%s] prints
    the next operand, or [%!s(MISSING)] when there is none; [%%] prints
    a percent sign; a percent sign that ends the format prints
    [%!(NOVERB)]; any other directive is left to [fmt_directive]. *)
Fixpoint doPrintf (lib : GoLib) (format : string) (a : list string) (argNum : nat) : string :=
  match format with
  | EmptyString => extra a argNum
  | String c rest =>
      if Ascii.eqb c "%" then
        match rest with
        | EmptyString => "%!(NOVERB)" +:+ extra a argNum
        | String verb rest' =>
            if Ascii.eqb verb "s" then
              match a !! argNum with
              | Some operand => operand +:+ doPrintf lib rest' a (S argNum)
              | None => "%!s(MISSING)" +:+ doPrintf lib rest' a argNum
              end
            else if Ascii.eqb verb "%" then String "%" (doPrintf lib rest' a argNum)
            else fmt_directive lib rest a argNum
        end
      else String c (doPrintf lib rest a argNum)
  end.

Definition Sprintf (lib : GoLib) (format : string) (a : list string) : string :=
  doPrintf lib format a 0.

End fmt.

(** ** validator.go *)

(** [type Validator func(name string, value string, inputs map[string]string, params []string) bool];
    a call either returns a boolean or panics. *)
Abbreviation Validator :=
  (string -> string -> gmap string string -> list string -> outcome bool).

Section Validator.

Variable lib : GoLib.

Fixpoint stringInSlice (needle : string) (haystack : list string) : bool :=
  match haystack with
  | [] => false
  | val :: haystack' =>
      if bool_decide (val = needle) then true else stringInSlice needle haystack'
  end.

(** [err == nil && test n] for the result of an integer parse. *)
Definition parsed {A : Type} (r : option A) (test : A -> bool) : bool :=
  match r with
  | Some n => test n
  | None => false
  end.

Definition len (s : string) : Z := Z.of_nat (String.length s).

Definition validScheme (lc : string) : bool :=
  strings.HasPrefix lc "http://" || strings.HasPrefix lc "https://".

Definition validateAccepted : Validator := fun name value inputs params =>
  Ok (stringInSlice value ["1"; "true"; "yes"; "on"]).

Definition validateActiveUrl : Validator := fun name value inputs params =>
  let lc := strings_ToLower lib value in
  if negb (validScheme lc) then Ok false
  else
    let lc := strings.TrimPrefix lc "http://" in
    let lc := strings.TrimPrefix lc "https://" in
    Ok (net_LookupHost_ok lib lc).

Definition validateAlpha : Validator := fun name value inputs params =>
  Ok (regexp_MatchString lib "^[a-zA-Z]+$" value).

Definition validateAlphaDash : Validator := fun name value inputs params =>
  Ok (regexp_MatchString lib "^[a-zA-Z0-9-_]+$" value).

Definition validateAlphaNumeric : Validator := fun name value inputs params =>
  Ok (regexp_MatchString lib "^[a-zA-Z0-9]+$" value).

Definition validateBoolean : Validator := fun name value inputs params =>
  Ok (strconv.ParseBool_ok value).

Definition validateChars : Validator := fun name value inputs params =>
  if List.length params =? 1 then
    p ← index params 0;
    Ok (parsed (strconv.ParseInt10 p 16) (fun charCount => (len value =? charCount)%Z))
  else Ok false.

Definition validateConfirmed : Validator := fun name value inputs params =>
  let '(fieldValue, fieldExists) := comma_ok inputs (name +:+ "_confirmation") in
  Ok (fieldExists && bool_decide (fieldValue = value)).

Definition validateDate : Validator := fun name value inputs params =>
  if List.length params =? 1 then
    layout ← index params 0;
    Ok (time_Parse_ok lib layout value)
  else Ok false.

Definition validateDigits : Validator := fun name value inputs params =>
  if (List.length params =? 1) && regexp_MatchString lib "^[0-9]+$" value then
    p ← index params 0;
    Ok (parsed (strconv.ParseInt10 p 16) (fun digitCount => (len value =? digitCount)%Z))
  else Ok false.

Definition validateEmail : Validator := fun name value inputs params =>
  Ok (regexp_MatchString lib "^[a-zA-Z0-9._%+-]+@[a-zA-Z0-9.-]+\.[a-zA-Z]{2,}$" value).

Definition validateIn : Validator := fun name value inputs params =>
  Ok (stringInSlice value params).

Definition validateInteger : Validator := fun name value inputs params =>
  Ok (bool_decide (is_Some (strconv.ParseInt10 value 64))).

Definition validateIp : Validator := fun name value inputs params =>
  Ok (net_ParseIP_ok lib value).

(** The bound is read from [params[1]] under the guard [len(params) == 1]. *)
Definition validateMinChars : Validator := fun name value inputs params =>
  if List.length params =? 1 then
    p ← index params 1;
    Ok (parsed (strconv.ParseInt10 p 16) (fun minChars => (len value >=? minChars)%Z))
  else Ok false.

Definition validateMinDigits : Validator := fun name value inputs params =>
  if (List.length params =? 1) && regexp_MatchString lib "^[0-9]+$" value then
    p ← index params 0;
    Ok (parsed (strconv.ParseInt10 p 16) (fun minDigits => (len value >=? minDigits)%Z))
  else Ok false.

Definition validateMinValue : Validator := fun name value inputs params =>
  if List.length params =? 1 then
    p ← index params 0;
    Ok (parsed (strconv_ParseFloat lib p 64) (fun minValue =>
        parsed (strconv_ParseFloat lib value 64) (fun floatValue =>
        float64_le lib minValue floatValue)))
  else Ok false.

(** The bound is read from [params[1]] under the guard [len(params) == 1]. *)
Definition validateMaxChars : Validator := fun name value inputs params =>
  if List.length params =? 1 then
    p ← index params 1;
    Ok (parsed (strconv.ParseInt10 p 16) (fun maxChars => (len value <=? maxChars)%Z))
  else Ok false.

Definition validateMaxDigits : Validator := fun name value inputs params =>
  if (List.length params =? 1) && regexp_MatchString lib "^[0-9]+$" value then
    p ← index params 0;
    Ok (parsed (strconv.ParseInt10 p 16) (fun maxDigits => (len value <=? maxDigits)%Z))
  else Ok false.

Definition validateMaxValue : Validator := fun name value inputs params =>
  if List.length params =? 1 then
    p ← index params 0;
    Ok (parsed (strconv_ParseFloat lib p 64) (fun maxValue =>
        parsed (strconv_ParseFloat lib value 64) (fun floatValue =>
        float64_le lib floatValue maxValue)))
  else Ok false.

Definition validateNotIn : Validator := fun name value inputs params =>
  Ok (negb (stringInSlice value params)).

Definition validateNumeric : Validator := fun name value inputs params =>
  Ok (bool_decide (is_Some (strconv_ParseFloat lib value 64))).

Definition validateRegex : Validator := fun name value inputs params =>
  if List.length params =? 1 then
    p ← index params 0;
    Ok (regexp_Compile_ok lib p && regexp_MatchString lib p value)
  else Ok false.

Definition validateRequired : Validator := fun name value inputs params =>
  Ok (negb (bool_decide (value = ""))).

Definition validateSame : Validator := fun name value inputs params =>
  if List.length params =? 1 then
    other ← index params 0;
    let '(fieldValue, fieldExists) := comma_ok inputs other in
    Ok (fieldExists && bool_decide (fieldValue = value))
  else Ok false.

Definition validateDifferent : Validator := fun name value inputs params =>
  same ← validateSame name value inputs params;
  Ok (negb same).

Definition validateUrl : Validator := fun name value inputs params =>
  let lc := strings_ToLower lib value in
  if validScheme lc then Ok true else Ok false.

Definition validateValue : Validator := fun name value inputs params =>
  if List.length params =? 1 then
    p ← index params 0;
    Ok (parsed (strconv_ParseFloat lib p 16) (fun expectedValue =>
        parsed (strconv_ParseFloat lib value 16) (fun actualValue =>
        float64_eq lib expectedValue actualValue)))
  else Ok false.

(** [a && b]: the right operand is evaluated only when the left one is true. *)
Definition and_then (a : outcome bool) (b : outcome bool) : outcome bool :=
  x ← a; if x : bool then b else Ok false.

Definition validateCharsBetween : Validator := fun name value inputs params =>
  if List.length params =? 2 then
    a ← index params 0;
    b ← index params 1;
    let p1 := [a] in
    let p2 := [b] in
    and_then (validateMinChars name value inputs p1) (validateMaxChars name value inputs p2)
  else Ok false.

Definition validateDigitsBetween : Validator := fun name value inputs params =>
  if List.length params =? 2 then
    a ← index params 0;
    b ← index params 1;
    let p1 := [a] in
    let p2 := [b] in
    and_then (validateMinDigits name value inputs p1) (validateMaxDigits name value inputs p2)
  else Ok false.

Definition validateValueBetween : Validator := fun name value inputs params =>
  if List.length params =? 2 then
    a ← index params 0;
    b ← index params 1;
    let p1 := [a] in
    let p2 := [b] in
    and_then (validateMinValue name value inputs p1) (validateMaxValue name value inputs p2)
  else Ok false.

(** *** The registry: the package variables [validators] and [messages] *)

Record Registry : Type := {
  validators : gmap string Validator;
  messages : gmap string string
}.

Definition builtin_validators : gmap string Validator :=
  list_to_map [
    ("accepted", validateAccepted);
    ("active_url", validateActiveUrl);
    ("alpha", validateAlpha);
    ("alpha_dash", validateAlphaDash);
    ("alpha_num", validateAlphaNumeric);
    ("boolean", validateBoolean);
    ("chars", validateChars);
    ("chars_between", validateCharsBetween);
    ("confirmed", validateConfirmed);
    ("date", validateDate);
    ("different", validateDifferent);
    ("digits", validateDigits);
    ("digits_between", validateDigitsBetween);
    ("email", validateEmail);
    ("in", validateIn);
    ("integer", validateInteger);
    ("ip", validateIp);
    ("max_chars", validateMaxChars);
    ("max_digits", validateMaxDigits);
    ("max_value", validateMaxValue);
    ("min_chars", validateMinChars);
    ("min_digits", validateMinDigits);
    ("min_value", validateMinValue);
    ("not_in", validateNotIn);
    ("numeric", validateNumeric);
    ("regex", validateRegex);
    ("required", validateRequired);
    ("same", validateSame);
    ("url", validateUrl);
    ("value", validateValue);
    ("value_between", validateValueBetween)
  ].

Definition builtin_messages : gmap string string :=
  list_to_map [
    ("accepted", "The %s must be accepted.");
    ("active_url", "The %s is not a valid URL.");
    ("alpha", "The %s may only contain letters.");
    ("alpha_dash", "The %s may only contain letters, numbers, and dashes.");
    ("alpha_num", "The %s may only contain letters and numbers.");
    ("boolean", "The %s field must be true or false.");
    ("chars", "The %s field must have %s characters.");
    ("chars_between", "The %s field must have between %s characters.");
    ("confirmed", "The %s confirmation does not match.");
    ("date", "The %s is not a valid date.");
    ("different", "The %s and %s must be different.");
    ("digits", "The %s must have %s digits.");
    ("digits_between", "The %s must have between %s and %s digits.");
    ("email", "The %s must be a valid email address.");
    ("in", "The selected %s is invalid.");
    ("max_chars", "The %s must have fewer than %s characters.");
    ("max_digits", "The %s must have fewer than %s digits.");
    ("max_value", "The %s must be less than %s.");
    ("min_chars", "The %s must have more than %s characters.");
    ("min_digits", "The %s must have more than %s digits.");
    ("min_value", "The %s must be greater than %s.");
    ("integer", "The %s must be an integer.");
    ("ip", "The %s must be a valid IP address.");
    ("not_in", "The selected %s is invalid.");
    ("numeric", "The %s must be a number.");
    ("regex", "The %s format is invalid.");
    ("required", "The %s field is required.");
    ("same", "The %s and %s must match.");
    ("url", "The %s format is invalid.");
    ("value", "The %s must %s.");
    ("value_between", "The %s must be between %s and %s.")
  ].

(** The registry as the package initialises it. *)
Definition builtin : Registry :=
  {| validators := builtin_validators; messages := builtin_messages |}.

Definition AddValidator (name : string) (fn : Validator) (message : string)
    (reg : Registry) : Registry :=
  {| validators := <[name := fn]> (validators reg);
     messages := <[name := message]> (messages reg) |}.

(** *** Message construction and rule parsing *)

Definition buildErrorMessage (reg : Registry) (fieldName rule : string)
    (params : list string) : string :=
  let '(message, exists_) := comma_ok (messages reg) rule in
  if negb exists_ || negb (strings.Count message "%s" =? 1 + List.length params) then
    fmt.Sprintf lib "The %s is invalid." [fieldName]
  else
    let args := fieldName :: params in
    fmt.Sprintf lib message args.

Definition splitRuleParams (ruleWithParams : string) : outcome (string * list string) :=
  let params := [] in
  let split := strings.Split ruleWithParams ":" in
  if List.length split =? 2 then
    rule ← index split 0;
    p ← index split 1;
    let params := strings.Split p "," in
    Ok (rule, params)
  else Ok (ruleWithParams, params).

(** *** The evaluation engine *)

(** One invocation of a registered predicate. *)
Record Call : Type := {
  call_field : string;
  call_rule : string;
  call_value : string;
  call_params : list string
}.

(** The state of a [Validate] run: the local [messages] map, and the
    predicate invocations made so far, oldest first.  The invocations
    are the run's only effect besides the map ([active_url] does a DNS
    lookup, a registered predicate is arbitrary code). *)
Record Run : Type := {
  run_messages : gmap string string;
  run_calls : list Call
}.

Definition set_message (fieldName message : string) (st : Run) : Run :=
  {| run_messages := <[fieldName := message]> (run_messages st);
     run_calls := run_calls st |}.

Definition record_call (c : Call) (st : Run) : Run :=
  {| run_messages := run_messages st; run_calls := run_calls st ++ [c] |}.

(** The body of the loop over [fieldRules]. *)
Definition applyRule (reg : Registry) (inputs : gmap string string)
    (fieldName fieldValue token : string) (st : Run) : outcome Run :=
  '(rule, params) ← splitRuleParams token;
  match validators reg !! rule with
  | Some vFn =>
      let st := record_call {| call_field := fieldName; call_rule := rule;
                               call_value := fieldValue; call_params := params |} st in
      valid ← vFn fieldName fieldValue inputs params;
      if negb valid then Ok (set_message fieldName (buildErrorMessage reg fieldName rule params) st)
      else Ok st
  | None => Ok st
  end.

Fixpoint applyRules (reg : Registry) (inputs : gmap string string)
    (fieldName fieldValue : string) (fieldRules : list string) (st : Run) : outcome Run :=
  match fieldRules with
  | [] => Ok st
  | token :: fieldRules' =>
      st ← applyRule reg inputs fieldName fieldValue token st;
      applyRules reg inputs fieldName fieldValue fieldRules' st
  end.

(** The body of the loop over [rules]. *)
Definition validateField (reg : Registry) (inputs : gmap string string)
    (fieldName fieldRulesRaw : string) (st : Run) : outcome Run :=
  let '(fieldValue, fieldExists) := comma_ok inputs fieldName in
  let fieldRules := strings.Split fieldRulesRaw "|" in
  let fieldIsRequired := stringInSlice "required" fieldRules in
  let alwaysValidate := stringInSlice "always" fieldRules in
  if fieldIsRequired && negb fieldExists then
    Ok (set_message fieldName (buildErrorMessage reg fieldName "required" []) st)
  else if fieldIsRequired || alwaysValidate
          || (negb fieldIsRequired && negb (bool_decide (fieldValue = ""))) then
    applyRules reg inputs fieldName fieldValue fieldRules st
  else Ok st.

(** [for fieldName, fieldRulesRaw := range rules], in the order [fields]
    in which the run time happens to visit the map. *)
Fixpoint validateFields (reg : Registry) (inputs : gmap string string)
    (fields : list (string * string)) (st : Run) : outcome Run :=
  match fields with
  | [] => Ok st
  | (fieldName, fieldRulesRaw) :: fields' =>
      st ← validateField reg inputs fieldName fieldRulesRaw st;
      validateFields reg inputs fields' st
  end.

Definition start : Run := {| run_messages := ∅; run_calls := [] |}.

(** [Validate] for a given visiting order: the success flag, the
    messages, and the predicate invocations made. *)
Definition ValidateIn (reg : Registry) (inputs : gmap string string)
    (fields : list (string * string)) : outcome (bool * gmap string string * list Call) :=
  st ← validateFields reg inputs fields start;
  Ok (size (run_messages st) =? 0, run_messages st, run_calls st).

(** The orders in which a [range] over [rules] can visit it: Go leaves
    the order unspecified. *)
Definition range_order (rules : gmap string string) (fields : list (string * string)) : Prop :=
  fields ≡ₚ map_to_list rules.

Definition Validate (reg : Registry) (inputs rules : gmap string string)
    : outcome (bool * gmap string string) :=
  '(success, msgs, _) ← ValidateIn reg inputs (map_to_list rules);
  Ok (success, msgs).

End Validator.

(** *** Rules from struct tags *)

(** What [reflect] shows of a value: a struct with its fields, each with
    its tag lookup [Tag.Get], or a value of another kind. *)
Record StructField : Type := {
  Name : string;
  Tag_Get : string -> string
}.

Inductive Value : Type :=
  | StructValue (fields : list StructField)
  | OtherValue.

Fixpoint RulesFromStruct_loop (fields : list StructField) (rules : gmap string string)
    : gmap string string :=
  match fields with
  | [] => rules
  | rti :: fields' =>
      let jsonName := Tag_Get rti "json" in
      let validate := Tag_Get rti "validate" in
      if negb (bool_decide (jsonName = "")) && negb (bool_decide (validate = ""))
      then RulesFromStruct_loop fields' (<[jsonName := validate]> rules)
      else RulesFromStruct_loop fields' rules
  end.

(** [rv.NumField()] panics on a value that is not a struct. *)
Definition RulesFromStruct (s : Value) : outcome (gmap string string) :=
  let rules := ∅ in
  match s with
  | StructValue fields => Ok (RulesFromStruct_loop fields rules)
  | OtherValue => Panic (CustomPanic "reflect: call of reflect.Value.NumField on non-struct Value")
  end.

(** ** config.go *)

Module Config.

(** The pattern [^[A-Za-z0-9_-]+\s*=.*$]: a non-empty run of key bytes,
    then white space ([\s] is tab, line feed, form feed, carriage return
    and space), then an equals sign, then anything but a line feed up to
    the end of the text. *)
Definition is_key_byte (c : ascii) : bool :=
  let n := nat_of_ascii c in
  ((65 <=? n) && (n <=? 90)) || ((97 <=? n) && (n <=? 122))
  || ((48 <=? n) && (n <=? 57)) || (n =? 95) || (n =? 45).

Definition is_space_byte (c : ascii) : bool :=
  let n := nat_of_ascii c in
  (n =? 9) || (n =? 10) || (n =? 12) || (n =? 13) || (n =? 32).

Fixpoint skip_while (p : ascii -> bool) (s : string) : string :=
  match s with
  | EmptyString => EmptyString
  | String c s' => if p c then skip_while p s' else s
  end.

Fixpoint no_line_feed (s : string) : bool :=
  match s with
  | EmptyString => true
  | String c s' => negb (nat_of_ascii c =? 10) && no_line_feed s'
  end.

Definition keyValue_MatchString (s : string) : bool :=
  match s with
  | EmptyString => false
  | String c _ =>
      is_key_byte c &&
      match skip_while is_space_byte (skip_while is_key_byte s) with
      | EmptyString => false
      | String d rest => Ascii.eqb d "=" && no_line_feed rest
      end
  end.

Record config : Type := { values : gmap string string }.

(** What [os.Open] and the reader give: the open fails, or a sequence of
    [ReadLine] results [(line, isPrefix)] with a nil error, after which
    [ReadLine] returns an error (the end of the file, or a read error). *)
Inductive file : Type :=
  | OpenFails (err : string)
  | Opened (reads : list (string * bool)).

(** What [Load] returns: a configuration, or an error. *)
Inductive load_result : Type :=
  | Loaded (c : config)
  | LoadError (err : string).

(** The body of the read loop for one line. *)
Definition loadLine (s : string) (values : gmap string string)
    : outcome (gmap string string) :=
  if keyValue_MatchString s then
    let delimIndex := strings.Index s "=" in
    k ← slice_to s delimIndex;
    v ← slice_from s (delimIndex + 1);
    let key := strings.Trim k " " in
    let value := strings.Trim v " " in
    Ok (<[key := value]> values)
  else Ok values.

Fixpoint readLoop (reads : list (string * bool)) (values : gmap string string)
    : outcome load_result :=
  match reads with
  | [] => Ok (Loaded {| values := values |})
  | (line, isPrefix) :: reads' =>
      if isPrefix then Ok (LoadError "config file line exceeded read buffer size")
      else
        values ← loadLine line values;
        readLoop reads' values
  end.

Definition Load (f : file) : outcome load_result :=
  match f with
  | OpenFails err => Ok (LoadError err)
  | Opened reads => readLoop reads ∅
  end.

Definition Get (c : config) (key : string) : string :=
  default "" (values c !! key).

Definition Has (c : config) (key : string) : bool :=
  negb (bool_decide (default "" (values c !! key) = "")).

Definition GetWithFallback (c : config) (key fallback : string) : string :=
  if negb (bool_decide (default "" (values c !! key) = ""))
  then default "" (values c !! key)
  else fallback.

Definition All (c : config) : gmap string string := values c.

End Config.

(** * Specification vocabulary *)

(** An instance of the library interface, for running the validator on
    sample requests: every external check answers no. *)
Definition null_lib : GoLib := {|
  strings_ToLower := fun s => s;
  regexp_Compile_ok := fun _ => false;
  regexp_MatchString := fun _ _ => false;
  float64 := unit;
  float64_le := fun _ _ => false;
  float64_eq := fun _ _ => false;
  strconv_ParseFloat := fun _ _ => None;
  time_Parse_ok := fun _ _ => false;
  net_ParseIP_ok := fun _ => false;
  net_LookupHost_ok := fun _ => false;
  fmt_directive := fun _ _ _ => EmptyString
|}.

(** A sample request: a name with digits in it and a negative age,
    against rules that ask for a name of letters and an age of at least 0. *)
Definition sample_inputs : gmap string string :=
  {["name" := "Bob123"; "age" := "-5"; "note" := "hi"]}.

Definition sample_rules : gmap string string :=
  {["name" := "required|alpha"; "age" := "integer|min_value:0"]}.

Definition sample_messages : gmap string string :=
  {["name" := "The name may only contain letters.";
    "age" := "The age must be greater than 0."]}.

(** The text before, and after, the first occurrence of a byte. *)
Fixpoint before (sep : ascii) (s : string) : string :=
  match s with
  | EmptyString => EmptyString
  | String c s' => if Ascii.eqb c sep then EmptyString else String c (before sep s')
  end.

Fixpoint after (sep : ascii) (s : string) : string :=
  match s with
  | EmptyString => EmptyString
  | String c s' => if Ascii.eqb c sep then s' else after sep s'
  end.

(** What evaluating one rule token against a field amounts to. *)
Inductive verdict : Type :=
  | Skipped                                                  (* no such rule in the registry *)
  | Evaluated (rule : string) (params : list string) (valid : bool).

Definition failure (v : verdict) : option (string * list string) :=
  match v with
  | Evaluated rule params false => Some (rule, params)
  | _ => None
  end.

Definition invocation (fieldName fieldValue : string) (v : verdict) : option Call :=
  match v with
  | Evaluated rule params _ =>
      Some {| call_field := fieldName; call_rule := rule;
              call_value := fieldValue; call_params := params |}
  | Skipped => None
  end.

(** The predicate invocations of a run that were made for one field. *)
Definition calls_for (fieldName : string) (calls : list Call) : list Call :=
  filter (fun c => call_field c = fieldName) calls.

Section Verdicts.

Variable lib : GoLib.
Variable reg : Registry.
Variable inputs : gmap string string.

Definition judge (fieldName fieldValue token : string) : outcome verdict :=
  '(rule, params) ← splitRuleParams token;
  match validators reg !! rule with
  | Some vFn =>
      valid ← vFn fieldName fieldValue inputs params;
      Ok (Evaluated rule params valid)
  | None => Ok Skipped
  end.

(** The verdicts of a rule list, taken left to right; the first panic
    ends the evaluation. *)
Fixpoint judgeAll (fieldName fieldValue : string) (tokens : list string)
    : outcome (list verdict) :=
  match tokens with
  | [] => Ok []
  | token :: tokens' =>
      v ← judge fieldName fieldValue token;
      vs ← judgeAll fieldName fieldValue tokens';
      Ok (v :: vs)
  end.

(** The last failing rule of a list of verdicts, if any rule failed. *)
Definition lastFailing (vs : list verdict) : option (string * list string) :=
  last (omap failure vs).

(** The run after a field's rules got the verdicts [vs]: the field's
    message is the one of the last failing rule, every other message is
    as before, and the invocations were made in the order of the list. *)
Definition afterRules (fieldName fieldValue : string) (vs : list verdict) (st : Run) : Run :=
  {| run_messages :=
       match lastFailing vs with
       | Some (rule, params) =>
           <[fieldName := buildErrorMessage lib reg fieldName rule params]> (run_messages st)
       | None => run_messages st
       end;
     run_calls := run_calls st ++ omap (invocation fieldName fieldValue) vs |}.

End Verdicts.

(** What one field's loop body does to a run: it may set the field's
    message, and it makes some invocations. *)
Definition field_effect (fieldName : string) (message : option string)
    (calls : list Call) (st : Run) : Run :=
  {| run_messages :=
       match message with
       | Some m => <[fieldName := m]> (run_messages st)
       | None => run_messages st
       end;
     run_calls := run_calls st ++ calls |}.

(** A registry none of whose predicates panics. *)
Definition panic_free (reg : Registry) : Prop :=
  forall rule vFn name value inputs params,
    validators reg !! rule = Some vFn -> returned (vFn name value inputs params).

(** Text without a percent sign. *)
Fixpoint no_percent (s : string) : bool :=
  match s with
  | EmptyString => true
  | String c s' => negb (Ascii.eqb c "%") && no_percent s'
  end.

(** The template that has a [%s] between consecutive pieces of text. *)
Definition template (pieces : list string) : string := String.concat "%s" pieces.

(** Positional substitution into such a template: the arguments, in
    order, take the places of the placeholders. *)
Fixpoint substitute (pieces args : list string) : string :=
  match pieces with
  | [] => EmptyString
  | [piece] => piece
  | piece :: pieces' =>
      match args with
      | arg :: args' => piece +:+ arg +:+ substitute pieces' args'
      | [] => piece +:+ "%!s(MISSING)" +:+ substitute pieces' []
      end
  end.

Definition generic_message (fieldName : string) : string :=
  "The " +:+ fieldName +:+ " is invalid.".

(** A second instance of the library interface: every external check
    answers yes. *)
Definition yes_lib : GoLib := {|
  strings_ToLower := fun s => s;
  regexp_Compile_ok := fun _ => true;
  regexp_MatchString := fun _ _ => true;
  float64 := unit;
  float64_le := fun _ _ => true;
  float64_eq := fun _ _ => true;
  strconv_ParseFloat := fun _ _ => Some tt;
  time_Parse_ok := fun _ _ => true;
  net_ParseIP_ok := fun _ => true;
  net_LookupHost_ok := fun _ => true;
  fmt_directive := fun _ _ _ => EmptyString
|}.

(** A sample struct: a name with both tags, an age whose [validate] tag is
    missing, and a second field that reuses the name's [json] tag. *)
Definition tags (json validate : string) (key : string) : string :=
  if bool_decide (key = "json") then json
  else if bool_decide (key = "validate") then validate
  else "".

Definition sample_struct : list StructField :=
  [ {| Name := "Name"; Tag_Get := tags "name" "required|alpha" |};
    {| Name := "Age"; Tag_Get := tags "age" "" |};
    {| Name := "Alias"; Tag_Get := tags "name" "alpha_num" |} ].

(** A small registry: the [required] rule alone. *)
Definition required_only : Registry :=
  {| validators := {["required" := validateRequired]};
     messages := {["required" := "The %s field is required."]} |}.

(** Text in which a byte does not occur. *)
Fixpoint lacks (sep : ascii) (s : string) : bool :=
  match s with
  | EmptyString => true
  | String c s' => negb (Ascii.eqb c sep) && lacks sep s'
  end.

(** The rule name a token parses to. *)
Definition rule_name (token : string) : string :=
  match splitRuleParams token with
  | Ok (rule, _) => rule
  | Panic _ => token
  end.

(** No rule token of the fields names one of [rules]. *)
Definition avoids (rules : list string) (fields : list (string * string)) : bool :=
  forallb (fun field : string * string =>
             forallb (fun token => negb (stringInSlice (rule_name token) rules))
                     (strings.Split (snd field) "|"))
          fields.

(** The predicate a token names, if any, returns on this field. *)
Definition token_safe (reg : Registry) (inputs : gmap string string)
    (fieldName fieldValue token : string) : Prop :=
  forall rule params vFn,
    splitRuleParams token = Ok (rule, params) ->
    validators reg !! rule = Some vFn ->
    returned (vFn fieldName fieldValue inputs params).

(** The three character-count rules. *)
Definition chars_rules : list string := ["min_chars"; "max_chars"; "chars_between"].

(** The token that writes a rule with its parameters. *)
Definition token_of (rule : string) (params : list string) : string :=
  match params with
  | [] => rule
  | _ => rule +:+ ":" +:+ String.concat "," params
  end.

(** Text all of whose bytes satisfy a test. *)
Fixpoint all_bytes (p : ascii -> bool) (s : string) : bool :=
  match s with
  | EmptyString => true
  | String c s' => p c && all_bytes p s'
  end.

(** Text that starts with a key byte of the configuration pattern. *)
Definition starts_with_key_byte (s : string) : bool :=
  match s with
  | EmptyString => false
  | String c _ => Config.is_key_byte c
  end.

(** A run of spaces. *)
Fixpoint spaces (n : nat) : string :=
  match n with
  | O => EmptyString
  | S n' => String " " (spaces n')
  end.

(** Text that neither starts nor ends with a space. *)
Definition trimmed (s : string) : bool :=
  bool_decide (strings.Trim s " " = s).

(** A template in which every percent sign begins a [%s] placeholder. *)
Fixpoint plain_template (t : string) : bool :=
  match t with
  | EmptyString => true
  | String c rest =>
      if Ascii.eqb c "%" then
        match rest with
        | EmptyString => false
        | String d rest' => Ascii.eqb d "s" && plain_template rest'
        end
      else plain_template rest
  end.

(** Positional substitution into any template: the arguments, in order,
    take the places of the instances of [%s], found left to right as
    [strings.Count] finds them; every other byte is kept. *)
Fixpoint substitute_positionally (t : string) (args : list string) : string :=
  match t with
  | EmptyString => EmptyString
  | String c rest =>
      if Ascii.eqb c "%" then
        match rest with
        | EmptyString => String c EmptyString
        | String d rest' =>
            if Ascii.eqb d "s" then
              match args with
              | arg :: args' => arg +:+ substitute_positionally rest' args'
              | [] => String c (String d (substitute_positionally rest' []))
              end
            else String c (substitute_positionally rest args)
        end
      else String c (substitute_positionally rest args)
  end.

(** The message as the specification words it: the generic message when
    the rule has no template or the count of [%s] does not fit, and
    otherwise the template with the field name and the parameters
    substituted positionally. *)
Definition message_as_specified (reg : Registry) (fieldName rule : string)
    (params : list string) : string :=
  match messages reg !! rule with
  | Some message =>
      if strings.Count message "%s" =? 1 + List.length params
      then substitute_positionally message (fieldName :: params)
      else generic_message fieldName
  | None => generic_message fieldName
  end.

(** A registry with a template that has an escaped percent sign before
    an s. *)
Definition escaped_registry : Registry :=
  AddValidator "odd" validateRequired "%%s %s" (builtin null_lib).

(** * Verification *)

(** ** The standard-library functions *)

Lemma HasPrefix_byte (c sep : ascii) (s : string) :
  strings.HasPrefix (String c s) (String sep EmptyString) = Ascii.eqb c sep.
Proof. simpl. apply andb_true_r. Qed.

Lemma Count_byte_cons (c sep : ascii) (s : string) :
  strings.Count (String c s) (String sep EmptyString)
  = (if Ascii.eqb c sep then 1 else 0) + strings.Count s (String sep EmptyString).
Proof.
  unfold strings.Count. cbn [strings.Count_from].
  rewrite HasPrefix_byte. by destruct (Ascii.eqb c sep).
Qed.

Lemma Split_length (s : string) (sep : ascii) :
  List.length (strings.Split s sep) = S (strings.Count s (String sep EmptyString)).
Proof.
  induction s as [|c s IH]; [done|].
  rewrite Count_byte_cons. cbn [strings.Split].
  destruct (Ascii.eqb c sep); cbn [List.length]; [by rewrite IH|].
  destruct (strings.Split s sep); simpl in *; lia.
Qed.

Lemma Split_no_separator (s : string) (sep : ascii) :
  strings.Count s (String sep EmptyString) = 0 -> strings.Split s sep = [s].
Proof.
  induction s as [|c s IH]; [done|].
  rewrite Count_byte_cons. cbn [strings.Split].
  destruct (Ascii.eqb c sep); [discriminate|].
  intros H. by rewrite IH.
Qed.

Lemma before_after (sep : ascii) (s : string) :
  strings.Count s (String sep EmptyString) ≠ 0 ->
  s = before sep s +:+ String sep (after sep s).
Proof.
  induction s as [|c s IH]; [done|].
  rewrite Count_byte_cons. simpl.
  destruct (Ascii.eqb_spec c sep) as [->|]; [done|].
  intros H.
  change (String c s = String c (before sep s +:+ String sep (after sep s))).
  f_equal. apply IH. lia.
Qed.

Lemma Split_one_separator (s : string) (sep : ascii) :
  strings.Count s (String sep EmptyString) = 1 ->
  strings.Split s sep = [before sep s; after sep s].
Proof.
  induction s as [|c s IH]; [done|].
  rewrite Count_byte_cons. cbn [strings.Split before after].
  destruct (Ascii.eqb c sep).
  - intros H. rewrite Split_no_separator; [done|lia].
  - intros H. by rewrite IH.
Qed.

(** ** The rule parser *)

(** C8. [splitRuleParams] returns for every token: a token with exactly
    one colon yields the text before the colon as the rule name and the
    comma-split of the text after it as the parameters; any other token
    (no colon, or two or more) is returned whole as the rule name, with no
    parameters. *)
Theorem splitRuleParams_spec (token : string) :
  splitRuleParams token
  = Ok (if strings.Count token ":" =? 1
        then (before ":" token, strings.Split (after ":" token) ",")
        else (token, [])).
Proof.
  unfold splitRuleParams.
  rewrite Split_length.
  change (S (strings.Count token ":") =? 2) with (strings.Count token ":" =? 1).
  destruct (Nat.eqb_spec (strings.Count token ":") 1) as [H|H]; [|done].
  by rewrite (Split_one_separator _ _ H).
Qed.

Example splitRuleParams_max_chars :
  splitRuleParams "max_chars:20" = Ok ("max_chars", ["20"]).
Proof. reflexivity. Qed.

Example splitRuleParams_two_colons :
  splitRuleParams "regex:^a:b$" = Ok ("regex:^a:b$", []).
Proof. reflexivity. Qed.

Lemma splitRuleParams_returns (token : string) : returned (splitRuleParams token).
Proof. rewrite splitRuleParams_spec. by eexists. Qed.

(** ** The character-count rules *)

Lemma validateMinChars_one_param (name value : string) (inputs : gmap string string) (p : string) :
  validateMinChars name value inputs [p] = Panic (IndexOutOfRange 1 1).
Proof. reflexivity. Qed.

Lemma validateMaxChars_one_param (name value : string) (inputs : gmap string string) (p : string) :
  validateMaxChars name value inputs [p] = Panic (IndexOutOfRange 1 1).
Proof. reflexivity. Qed.

(** [min_chars] and [max_chars] never accept a value. *)
Lemma validateMinChars_never_true name value inputs params :
  validateMinChars name value inputs params ≠ Ok true.
Proof.
  unfold validateMinChars.
  destruct params as [|p [|q params]]; simpl; discriminate.
Qed.

(** C2. [chars_between:3,6] does not decide anything: the rule string
    parses to the rule [chars_between] with the parameters 3 and 6, the
    registry maps it to [validateCharsBetween], and for every value, of
    any length, the call panics in [validateMinChars], which indexes its
    one-element parameter slice at 1. *)
Theorem validateCharsBetween_3_6_panics (lib : GoLib) (name value : string)
    (inputs : gmap string string) :
  splitRuleParams "chars_between:3,6" = Ok ("chars_between", ["3"; "6"]) /\
  validators (builtin lib) !! "chars_between" = Some validateCharsBetween /\
  validateCharsBetween name value inputs ["3"; "6"] = Panic (IndexOutOfRange 1 1).
Proof.
  split; [reflexivity|]. split; [by vm_compute|].
  unfold validateCharsBetween, and_then. cbn [List.length Nat.eqb index lookup list_lookup].
  cbn [mbind outcome_bind].
  by rewrite validateMinChars_one_param.
Qed.

Example validateCharsBetween_length_4 :
  validateCharsBetween "name" "abcd" ∅ ["3"; "6"] = Panic (IndexOutOfRange 1 1).
Proof. reflexivity. Qed.

(** ** The [same] rule *)

(** C9. The rule string [same:password] parses to the rule [same] with the
    one parameter [password], the registry maps [same] to [validateSame],
    and the call returns true exactly when [inputs] maps [password] to the
    field's value; it returns false when [password] is absent. *)
Theorem validateSame_password (lib : GoLib) (name value : string) (inputs : gmap string string) :
  splitRuleParams "same:password" = Ok ("same", ["password"]) /\
  validators (builtin lib) !! "same" = Some validateSame /\
  (validateSame name value inputs ["password"] = Ok true
   <-> inputs !! "password" = Some value) /\
  validateSame name value (delete "password" inputs) ["password"] = Ok false /\
  returned (validateSame name value inputs ["password"]).
Proof.
  split; [reflexivity|]. split; [by vm_compute|].
  unfold validateSame, comma_ok; cbn.
  rewrite lookup_delete_eq.
  destruct (inputs !! "password") as [v|] eqn:E; cbn.
  - split; [|split; [done|by eexists]].
    case_bool_decide; split; intros ?; simplify_eq; done.
  - split; [|split; [done|by eexists]].
    split; intros ?; simplify_eq.
Qed.

Example validateSame_case_sensitive :
  validateSame "password_confirmation" "Secret" {["password" := "secret"]} ["password"]
  = Ok false.
Proof. by vm_compute. Qed.

(** ** The evaluation engine *)

Lemma bind_Ok {A B : Type} (m : outcome A) (k : A -> outcome B) (b : B) :
  m ≫= k = Ok b -> exists a, m = Ok a /\ k a = Ok b.
Proof. destruct m as [a|p]; [by exists a|discriminate]. Qed.

Ltac bind_inv H :=
  let a := fresh "st" in
  let Ha := fresh "Hst" in
  apply bind_Ok in H as (a & Ha & H).

Section Engine.

Variable lib : GoLib.
Variable reg : Registry.
Variable inputs : gmap string string.

Lemma afterRules_nil f v st : afterRules lib reg f v [] st = st.
Proof.
  destruct st as [m c]. unfold afterRules; cbn. by rewrite app_nil_r.
Qed.

Lemma afterRules_cons f v x vs st :
  afterRules lib reg f v (x :: vs) st = afterRules lib reg f v vs (afterRules lib reg f v [x] st).
Proof.
  destruct st as [m c]. unfold afterRules, lastFailing; cbn.
  f_equal.
  - destruct x as [|rule params [|]]; cbn; try done.
    rewrite last_cons.
    destruct (last (omap failure vs)) as [[r ps]|]; [|done].
    by rewrite insert_insert_eq.
  - rewrite <- app_assoc. f_equal.
    by destruct (invocation f v x).
Qed.

Lemma applyRule_judge f v token st :
  applyRule lib reg inputs f v token st
  = x ← judge reg inputs f v token; Ok (afterRules lib reg f v [x] st).
Proof.
  unfold applyRule, judge.
  destruct (splitRuleParams token) as [[rule params]|p]; [|done]; cbn.
  destruct (validators reg !! rule) as [vFn|]; cbn.
  - destruct (vFn f v inputs params) as [[|]|p]; done.
  - exact (eq_sym (f_equal Ok (afterRules_nil f v st))).
Qed.

Lemma applyRules_inv f v tokens st st' :
  applyRules lib reg inputs f v tokens st = Ok st' ->
  exists vs, judgeAll reg inputs f v tokens = Ok vs /\ st' = afterRules lib reg f v vs st.
Proof.
  revert st. induction tokens as [|token tokens IH]; intros st H; cbn [applyRules judgeAll] in *.
  - exists []. by rewrite afterRules_nil; simplify_eq.
  - rewrite applyRule_judge in H. bind_inv H. bind_inv Hst. simplify_eq.
    destruct (IH _ H) as (vs & Hvs & ->).
    exists (st1 :: vs). rewrite Hst0, Hvs. split; [done|].
    by rewrite <- afterRules_cons.
Qed.

End Engine.

(** C6. The rules of one field are evaluated left to right, in the order
    of the rule string: the predicate invocations appear in that order,
    the first panic ends the loop, and otherwise the field's message is
    the message of the last rule that failed, whatever failed before it;
    no other field's message changes, so the field keeps at most one. *)
Theorem applyRules_last_failure_wins (lib : GoLib) (reg : Registry)
    (inputs : gmap string string) (fieldName fieldValue : string)
    (fieldRules : list string) (st : Run) :
  applyRules lib reg inputs fieldName fieldValue fieldRules st
  = vs ← judgeAll reg inputs fieldName fieldValue fieldRules;
    Ok {| run_messages :=
            match last (omap failure vs) with
            | Some (rule, params) =>
                <[fieldName := buildErrorMessage lib reg fieldName rule params]> (run_messages st)
            | None => run_messages st
            end;
          run_calls := run_calls st ++ omap (invocation fieldName fieldValue) vs |}.
Proof.
  change (applyRules lib reg inputs fieldName fieldValue fieldRules st
          = vs ← judgeAll reg inputs fieldName fieldValue fieldRules;
            Ok (afterRules lib reg fieldName fieldValue vs st)).
  revert st.
  induction fieldRules as [|token fieldRules IH]; intros st; cbn [applyRules judgeAll].
  - exact (eq_sym (f_equal Ok (afterRules_nil lib reg fieldName fieldValue st))).
  - rewrite applyRule_judge.
    destruct (judge reg inputs fieldName fieldValue token) as [x|p]; [|done]; cbn.
    rewrite IH.
    destruct (judgeAll reg inputs fieldName fieldValue fieldRules) as [vs|p]; [|done]; cbn.
    by rewrite <- afterRules_cons.
Qed.

Section Frames.

Variable lib : GoLib.
Variable reg : Registry.
Variable inputs : gmap string string.

Lemma applyRules_app f v l1 l2 st :
  applyRules lib reg inputs f v (l1 ++ l2) st
  = st1 ← applyRules lib reg inputs f v l1 st; applyRules lib reg inputs f v l2 st1.
Proof.
  revert st. induction l1 as [|t l1 IH]; intros st; [done|].
  cbn [app applyRules].
  destruct (applyRule lib reg inputs f v t st) as [st1|p]; [|done].
  apply IH.
Qed.

Lemma calls_for_invocations g f v vs :
  g ≠ f -> calls_for g (omap (invocation f v) vs) = [].
Proof.
  intros Hne. unfold calls_for.
  induction vs as [|[|rule params valid] vs IH]; cbn -[filter]; [done..|].
  rewrite filter_cons_False; [done|]. cbn. congruence.
Qed.

Lemma afterRules_frame f v vs st g :
  g ≠ f ->
  run_messages (afterRules lib reg f v vs st) !! g = run_messages st !! g /\
  calls_for g (run_calls (afterRules lib reg f v vs st)) = calls_for g (run_calls st).
Proof.
  intros Hne. unfold afterRules; cbn. split.
  - destruct (lastFailing vs) as [[rule params]|]; [|done].
    by rewrite lookup_insert_ne.
  - unfold calls_for. rewrite filter_app.
    fold (calls_for g (omap (invocation f v) vs)).
    by rewrite calls_for_invocations, app_nil_r.
Qed.

(** The loop body for one field leaves the other fields' messages and
    invocations alone. *)
Lemma validateField_frame f raw st st' g :
  validateField lib reg inputs f raw st = Ok st' ->
  g ≠ f ->
  run_messages st' !! g = run_messages st !! g /\
  calls_for g (run_calls st') = calls_for g (run_calls st).
Proof.
  unfold validateField. intros H Hne.
  destruct (comma_ok inputs f) as [fieldValue fieldExists].
  destruct (_ && negb fieldExists).
  { simplify_eq. cbn. by rewrite lookup_insert_ne. }
  destruct (_ || _); [|by simplify_eq].
  apply applyRules_inv in H as (vs & _ & ->). by apply afterRules_frame.
Qed.

Lemma validateFields_frame fields st st' g :
  g ∉ fields.*1 ->
  validateFields lib reg inputs fields st = Ok st' ->
  run_messages st' !! g = run_messages st !! g /\
  calls_for g (run_calls st') = calls_for g (run_calls st).
Proof.
  revert st. induction fields as [|[f raw] fields IH]; intros st Hg H.
  - by simplify_eq/=.
  - cbn [validateFields] in H. bind_inv H.
    rewrite fmap_cons, not_elem_of_cons in Hg. destruct Hg as [Hne Hg].
    destruct (IH _ Hg H) as [-> ->].
    by apply (validateField_frame f raw).
Qed.

(** In a run over fields with distinct names, what the run holds for a
    field at the end is what that field's own loop body left. *)
Lemma validateFields_field fields st st' f raw :
  NoDup fields.*1 ->
  (f, raw) ∈ fields ->
  validateFields lib reg inputs fields st = Ok st' ->
  exists st1 st2,
    validateField lib reg inputs f raw st1 = Ok st2 /\
    run_messages st1 !! f = run_messages st !! f /\
    calls_for f (run_calls st1) = calls_for f (run_calls st) /\
    run_messages st' !! f = run_messages st2 !! f /\
    calls_for f (run_calls st') = calls_for f (run_calls st2).
Proof.
  revert st. induction fields as [|[g r] fields IH]; intros st Hnd Hin H.
  - by apply elem_of_nil in Hin.
  - cbn [validateFields] in H. bind_inv H.
    rewrite fmap_cons in Hnd. apply NoDup_cons in Hnd as [Hg Hnd].
    apply elem_of_cons in Hin as [Heq|Hin].
    + simplify_eq. exists st, st0. split; [done|]. split; [done|]. split; [done|].
      by apply (validateFields_frame fields).
    + assert (f ≠ g) as Hne.
      { intros ->. apply Hg. apply list_elem_of_fmap. by exists (g, raw). }
      destruct (IH _ Hnd Hin H) as (st1 & st2 & H1 & Hm & Hc & Hm' & Hc').
      destruct (validateField_frame g r st st0 f Hst Hne) as [Em Ec].
      exists st1, st2. rewrite Hm, Hc, Em, Ec. done.
Qed.

Lemma range_order_NoDup (rules : gmap string string) fields :
  range_order rules fields -> NoDup fields.*1.
Proof.
  unfold range_order. intros ->. apply NoDup_fst_map_to_list.
Qed.

Lemma range_order_elem (rules : gmap string string) fields f raw :
  range_order rules fields -> (f, raw) ∈ fields <-> rules !! f = Some raw.
Proof.
  unfold range_order. intros ->. apply elem_of_map_to_list.
Qed.

Lemma range_order_names (rules : gmap string string) fields f :
  range_order rules fields -> f ∈ fields.*1 <-> is_Some (rules !! f).
Proof.
  intros Hr. rewrite list_elem_of_fmap. split.
  - intros [[g raw] [-> Hin]]. apply (range_order_elem _ _ _ _ Hr) in Hin. by eexists.
  - intros [raw Hraw]. exists (f, raw). split; [done|]. by apply (range_order_elem _ _ _ _ Hr).
Qed.

End Frames.

Section Order.

Variable lib : GoLib.
Variable reg : Registry.
Variable inputs : gmap string string.

Lemma applyRules_of_judgeAll f v tokens vs st :
  judgeAll reg inputs f v tokens = Ok vs ->
  applyRules lib reg inputs f v tokens st = Ok (afterRules lib reg f v vs st).
Proof.
  revert vs st. induction tokens as [|token tokens IH]; intros vs st H;
    cbn [applyRules judgeAll] in *.
  - simplify_eq. by rewrite afterRules_nil.
  - bind_inv H. bind_inv H. simplify_eq.
    rewrite applyRule_judge, Hst. cbn.
    rewrite (IH _ _ Hst0). by rewrite <- afterRules_cons.
Qed.

(** A loop body that returns does the same to every run. *)
Lemma validateField_effect f raw st1 st2 :
  validateField lib reg inputs f raw st1 = Ok st2 ->
  exists message calls,
    forall st, validateField lib reg inputs f raw st = Ok (field_effect f message calls st).
Proof.
  unfold validateField.
  destruct (comma_ok inputs f) as [fieldValue fieldExists].
  destruct (_ && negb fieldExists).
  { intros _. eexists (Some _), []. intros st.
    unfold set_message, field_effect. by rewrite app_nil_r. }
  destruct (_ || _).
  - intros (vs & Hvs & _)%applyRules_inv.
    exists (match lastFailing vs with
            | Some (rule, params) => Some (buildErrorMessage lib reg f rule params)
            | None => None
            end), (omap (invocation f fieldValue) vs).
    intros st. rewrite (applyRules_of_judgeAll _ _ _ _ _ Hvs).
    unfold afterRules, field_effect. by destruct (lastFailing vs) as [[rule params]|].
  - intros _. exists None, []. intros st.
    unfold field_effect. destruct st as [m c]; cbn. by rewrite app_nil_r.
Qed.

Lemma validateFields_uniform fields st1 st2 st :
  validateFields lib reg inputs fields st1 = Ok st2 ->
  run_messages st = run_messages st1 ->
  exists st', validateFields lib reg inputs fields st = Ok st' /\
    run_messages st' = run_messages st2.
Proof.
  revert st1 st. induction fields as [|[f raw] fields IH]; intros st1 st H Hm.
  - simplify_eq/=. by exists st.
  - cbn [validateFields] in *. bind_inv H.
    destruct (validateField_effect _ _ _ _ Hst) as (om & cs & Heff).
    rewrite Heff in Hst. simplify_eq. rewrite Heff. cbn.
    apply (IH _ _ H). unfold field_effect; cbn. by rewrite Hm.
Qed.

Lemma validateFields_Permutation fields fields' :
  fields ≡ₚ fields' ->
  NoDup fields.*1 ->
  forall st st',
    validateFields lib reg inputs fields st = Ok st' ->
    exists st'', validateFields lib reg inputs fields' st = Ok st'' /\
      run_messages st'' = run_messages st'.
Proof.
  induction 1 as [|[f raw] l l' Hperm IH|[f raw] [g r] l|l1 l2 l3 H12 IH12 H23 IH23];
    intros Hnd st st' H.
  - by exists st'.
  - cbn [validateFields] in *. bind_inv H.
    rewrite fmap_cons in Hnd. apply NoDup_cons in Hnd as [_ Hnd].
    rewrite Hst. cbn. by apply IH.
  - cbn [validateFields] in *. bind_inv H. bind_inv H.
    rewrite !fmap_cons in Hnd. apply NoDup_cons in Hnd as [Hne _].
    apply not_elem_of_cons in Hne as [Hne _]. cbn in Hne.
    destruct (validateField_effect _ _ _ _ Hst) as (omg & csg & Hg).
    destruct (validateField_effect _ _ _ _ Hst0) as (omf & csf & Hf).
    rewrite Hg in Hst. rewrite Hf in Hst0. simplify_eq.
    rewrite Hf. cbn. rewrite Hg. cbn.
    apply (validateFields_uniform _ _ _ _ H).
    unfold field_effect; cbn.
    destruct omf, omg; try done. by apply insert_insert_ne.
  - destruct (IH12 Hnd _ _ H) as (st2 & H2 & E2).
    assert (NoDup l2.*1) as Hnd2 by (by rewrite <- H12).
    destruct (IH23 Hnd2 _ _ H2) as (st3 & H3 & E3).
    exists st3. split; [done|]. by rewrite E3.
Qed.

End Order.

(** The visiting order does not matter to what a run returns: a run that
    returns in some order of the rules map returns the same flag and
    messages in the order [Validate] is defined with. *)
Lemma Validate_any_order lib reg (inputs rules : gmap string string) fields
    success msgs calls :
  range_order rules fields ->
  ValidateIn lib reg inputs fields = Ok (success, msgs, calls) ->
  Validate lib reg inputs rules = Ok (success, msgs).
Proof.
  unfold Validate, ValidateIn. intros Hord H. bind_inv H. simplify_eq.
  destruct (validateFields_Permutation lib reg inputs fields (map_to_list rules) Hord
              (range_order_NoDup rules fields Hord) _ _ Hst) as (st' & H' & E).
  rewrite H'. cbn. by rewrite E.
Qed.

Lemma ValidateIn_Ok lib reg inputs fields success msgs calls :
  ValidateIn lib reg inputs fields = Ok (success, msgs, calls) ->
  exists st, validateFields lib reg inputs fields start = Ok st /\
    success = (size (run_messages st) =? 0) /\
    msgs = run_messages st /\ calls = run_calls st.
Proof.
  unfold ValidateIn. intros H. bind_inv H. simplify_eq. by exists st.
Qed.

(** C3. A field whose rule list contains [required] and that is absent
    from the inputs gets the message built for the rule [required], and
    no predicate is invoked for it: the loop body returns the run with
    that one message set, and a [Validate] that returns reports the
    message for the field, fails, and has invoked nothing for the field. *)
Theorem required_field_absent (lib : GoLib) (reg : Registry)
    (inputs rules : gmap string string) (fields : list (string * string))
    (fieldName fieldRulesRaw : string) (st : Run)
    (success : bool) (msgs : gmap string string) (calls : list Call) :
  stringInSlice "required" (strings.Split fieldRulesRaw "|") = true ->
  inputs !! fieldName = None ->
  rules !! fieldName = Some fieldRulesRaw ->
  range_order rules fields ->
  ValidateIn lib reg inputs fields = Ok (success, msgs, calls) ->
  validateField lib reg inputs fieldName fieldRulesRaw st
    = Ok (set_message fieldName (buildErrorMessage lib reg fieldName "required" []) st) /\
  msgs !! fieldName = Some (buildErrorMessage lib reg fieldName "required" []) /\
  success = false /\
  calls_for fieldName calls = [].
Proof.
  intros Hreq Habs Hrule Hord Hrun.
  assert (forall s, validateField lib reg inputs fieldName fieldRulesRaw s
    = Ok (set_message fieldName (buildErrorMessage lib reg fieldName "required" []) s)) as Hbody.
  { intros s. unfold validateField, comma_ok. by rewrite Habs, Hreq. }
  split; [apply Hbody|].
  apply ValidateIn_Ok in Hrun as (st' & Hrun & -> & -> & ->).
  destruct (validateFields_field lib reg inputs fields start st' fieldName fieldRulesRaw)
    as (st1 & st2 & H1 & Hm & Hc & Hm' & Hc'); [by eapply range_order_NoDup| |done|].
  { by apply (range_order_elem rules). }
  rewrite Hbody in H1. simplify_eq.
  assert (run_messages st' !! fieldName
          = Some (buildErrorMessage lib reg fieldName "required" [])) as Hmsg.
  { rewrite Hm'. cbn. apply lookup_insert_eq. }
  split; [done|]. split.
  - apply Nat.eqb_neq. intros Hsz. apply map_size_empty_iff in Hsz.
    by rewrite Hsz, lookup_empty in Hmsg.
  - etrans; [exact Hc'|]. etrans; [exact Hc|]. done.
Qed.

Lemma required_field_absent_witness :
  validateField null_lib (builtin null_lib) {["age" := "7"]} "name" "required|alpha" start
    = Ok (set_message "name"
            (buildErrorMessage null_lib (builtin null_lib) "name" "required" []) start) /\
  ({["name" := "The name field is required."]} : gmap string string) !! "name"
    = Some (buildErrorMessage null_lib (builtin null_lib) "name" "required" []) /\
  false = false /\
  calls_for "name" [] = [].
Proof.
  apply (required_field_absent null_lib (builtin null_lib) {["age" := "7"]}
           {["name" := "required|alpha"]} [("name", "required|alpha")]
           "name" "required|alpha" start false
           {["name" := "The name field is required."]} []).
  - reflexivity.
  - reflexivity.
  - reflexivity.
  - unfold range_order. rewrite map_to_list_singleton. reflexivity.
  - vm_compute. reflexivity.
Defined.

(** C4. A field whose rule list contains neither [required] nor [always]
    and whose value is absent or empty is skipped: the loop body returns
    the run unchanged, whatever else the rule string declares, and a
    [Validate] that returns has no message and no invocation for it. *)
Theorem optional_empty_field_skipped (lib : GoLib) (reg : Registry)
    (inputs rules : gmap string string) (fields : list (string * string))
    (fieldName fieldRulesRaw : string) (st : Run)
    (success : bool) (msgs : gmap string string) (calls : list Call) :
  stringInSlice "required" (strings.Split fieldRulesRaw "|") = false ->
  stringInSlice "always" (strings.Split fieldRulesRaw "|") = false ->
  inputs !! fieldName = None \/ inputs !! fieldName = Some "" ->
  rules !! fieldName = Some fieldRulesRaw ->
  range_order rules fields ->
  ValidateIn lib reg inputs fields = Ok (success, msgs, calls) ->
  validateField lib reg inputs fieldName fieldRulesRaw st = Ok st /\
  msgs !! fieldName = None /\
  calls_for fieldName calls = [].
Proof.
  intros Hreq Halw Hval Hrule Hord Hrun.
  assert (forall s, validateField lib reg inputs fieldName fieldRulesRaw s = Ok s) as Hbody.
  { intros s. unfold validateField, comma_ok. rewrite Hreq, Halw.
    by destruct Hval as [-> | ->]. }
  split; [apply Hbody|].
  apply ValidateIn_Ok in Hrun as (st' & Hrun & -> & -> & ->).
  destruct (validateFields_field lib reg inputs fields start st' fieldName fieldRulesRaw)
    as (st1 & st2 & H1 & Hm & Hc & Hm' & Hc'); [by eapply range_order_NoDup| |done|].
  { by apply (range_order_elem rules). }
  rewrite Hbody in H1. simplify_eq.
  split; [by rewrite Hm', Hm|by rewrite Hc', Hc].
Qed.

Lemma optional_empty_field_skipped_witness :
  validateField null_lib (builtin null_lib) {["age" := "7"]} "mail" "email|max_chars:5" start
    = Ok start /\
  (∅ : gmap string string) !! "mail" = None /\
  calls_for "mail" [] = [].
Proof.
  apply (optional_empty_field_skipped null_lib (builtin null_lib) {["age" := "7"]}
           {["mail" := "email|max_chars:5"]} [("mail", "email|max_chars:5")]
           "mail" "email|max_chars:5" start true ∅ []).
  - reflexivity.
  - reflexivity.
  - left. reflexivity.
  - reflexivity.
  - unfold range_order. rewrite map_to_list_singleton. reflexivity.
  - vm_compute. reflexivity.
Defined.

Lemma unknown_rule_step lib reg inputs f v token rule params :
  splitRuleParams token = Ok (rule, params) ->
  validators reg !! rule = None ->
  forall st, applyRule lib reg inputs f v token st = Ok st /\
             judge reg inputs f v token = Ok Skipped.
Proof.
  intros Hparse Hnone st. unfold applyRule, judge. rewrite Hparse.
  unfold mbind, outcome_bind. cbv beta iota. by rewrite Hnone.
Qed.

(** C5. A rule token whose parsed name is not in the registry has no
    effect: its evaluation returns the run unchanged (no message, no
    invocation, no panic), and the field's rule list evaluates as it does
    without the token. *)
Theorem unknown_rule_ignored (lib : GoLib) (reg : Registry) (inputs : gmap string string)
    (fieldName fieldValue token rule : string) (params before_ after_ : list string)
    (st : Run) :
  splitRuleParams token = Ok (rule, params) ->
  validators reg !! rule = None ->
  applyRule lib reg inputs fieldName fieldValue token st = Ok st /\
  applyRules lib reg inputs fieldName fieldValue (before_ ++ token :: after_) st
    = applyRules lib reg inputs fieldName fieldValue (before_ ++ after_) st.
Proof.
  intros Hparse Hnone.
  assert (forall s, applyRule lib reg inputs fieldName fieldValue token s = Ok s) as Hstep.
  { intros s. by apply (unknown_rule_step lib reg inputs fieldName fieldValue token rule params). }
  split; [apply Hstep|].
  rewrite !applyRules_app.
  destruct (applyRules lib reg inputs fieldName fieldValue before_ st) as [st1|p]; [|done].
  cbn. by rewrite Hstep.
Qed.

Lemma unknown_rule_ignored_witness :
  applyRule null_lib (builtin null_lib) {["name" := "Bob"]} "name" "Bob" "hello:1,2" start
    = Ok start /\
  applyRules null_lib (builtin null_lib) {["name" := "Bob"]} "name" "Bob"
      (["required"] ++ "hello:1,2" :: ["alpha"]) start
    = applyRules null_lib (builtin null_lib) {["name" := "Bob"]} "name" "Bob"
      (["required"] ++ ["alpha"]) start.
Proof.
  apply (unknown_rule_ignored null_lib (builtin null_lib) {["name" := "Bob"]}
           "name" "Bob" "hello:1,2" "hello" ["1"; "2"] ["required"] ["alpha"] start).
  - reflexivity.
  - vm_compute. reflexivity.
Defined.

(** A field all of whose rule tokens are unknown to the registry is
    valid, whatever its value. *)
Lemma unknown_rules_only_valid lib reg inputs f raw st :
  is_Some (validators reg !! "required") ->
  Forall (fun token => exists rule params,
            splitRuleParams token = Ok (rule, params) /\ validators reg !! rule = None)
         (strings.Split raw "|") ->
  validateField lib reg inputs f raw st = Ok st.
Proof.
  intros [vReq HvReq] Hall. unfold validateField.
  destruct (comma_ok inputs f) as [fieldValue fieldExists].
  assert (stringInSlice "required" (strings.Split raw "|") = false) as ->.
  { induction Hall as [|token tokens (rule & params & Hparse & Hnone) _ IH]; [done|].
    cbn [stringInSlice]. case_bool_decide as Heq; [|done].
    subst token. cbv in Hparse. simplify_eq. }
  cbn [andb orb negb].
  assert (forall s, applyRules lib reg inputs f fieldValue (strings.Split raw "|") s = Ok s) as Hrules.
  { induction Hall as [|token tokens (rule & params & Hparse & Hnone) _ IH]; intros s; [done|].
    cbn [applyRules].
    rewrite (proj1 (unknown_rule_step lib reg inputs f fieldValue token rule params Hparse Hnone s)).
    apply IH. }
  destruct (_ || _); [apply Hrules|done].
Qed.

(** ** The whole run *)

Section Totality.

Variable lib : GoLib.
Variable reg : Registry.

Hypothesis Hreg : panic_free reg.

Lemma judge_returns inputs f v token : returned (judge reg inputs f v token).
Proof.
  unfold judge. rewrite splitRuleParams_spec.
  destruct (_ =? 1); cbn.
  - destruct (validators reg !! _) as [vFn|] eqn:E; [|by eexists].
    destruct (Hreg _ _ f v inputs (strings.Split (after ":" token) ",") E) as [b ->].
    by eexists.
  - destruct (validators reg !! _) as [vFn|] eqn:E; [|by eexists].
    destruct (Hreg _ _ f v inputs [] E) as [b ->].
    by eexists.
Qed.

Lemma applyRules_returns inputs f v tokens st :
  returned (applyRules lib reg inputs f v tokens st).
Proof.
  revert st. induction tokens as [|t tokens IH]; intros st; [by eexists|].
  cbn [applyRules]. rewrite applyRule_judge.
  destruct (judge_returns inputs f v t) as [x ->]. apply IH.
Qed.

Lemma validateField_returns inputs f raw st :
  returned (validateField lib reg inputs f raw st).
Proof.
  unfold validateField. destruct (comma_ok inputs f) as [v e].
  destruct (_ && negb e); [by eexists|].
  destruct (_ || _); [apply applyRules_returns|by eexists].
Qed.

(** The only panics of a run are those of the registered predicates. *)
Lemma ValidateIn_returns inputs fields : returned (ValidateIn lib reg inputs fields).
Proof.
  unfold ValidateIn.
  assert (forall st, returned (validateFields lib reg inputs fields st)) as H.
  { induction fields as [|[f raw] fields IH]; intros st; [by eexists|].
    cbn [validateFields].
    destruct (validateField_returns inputs f raw st) as [st1 ->]. apply IH. }
  destruct (H start) as [st ->]. by eexists.
Qed.

End Totality.

(** C1. [Validate] does not return for every input: with the registry the
    package starts with, a submitted field under the rule [min_chars:3]
    makes the run panic with an index out of range, in
    [validateMinChars]. *)
Theorem Validate_min_chars_panics (lib : GoLib) :
  Validate lib (builtin lib) {["username" := "bob"]} {["username" := "min_chars:3"]}
  = Panic (IndexOutOfRange 1 1).
Proof.
  unfold Validate. rewrite map_to_list_singleton. by vm_compute.
Qed.

(** C10. The messages a [Validate] returns are all for fields that have a
    rule string, so a field that is only in the inputs never gets one, and
    the success flag is true exactly when there is no message; this holds
    in whatever order the fields are visited. *)
Theorem Validate_messages_for_declared_fields (lib : GoLib) (reg : Registry)
    (inputs rules : gmap string string) (fields : list (string * string))
    (success : bool) (msgs : gmap string string) (calls : list Call) :
  range_order rules fields ->
  ValidateIn lib reg inputs fields = Ok (success, msgs, calls) ->
  dom msgs ⊆ dom rules /\
  (forall fieldName, rules !! fieldName = None -> msgs !! fieldName = None) /\
  (success = true <-> msgs = ∅).
Proof.
  intros Hord Hrun.
  apply ValidateIn_Ok in Hrun as (st & Hrun & -> & -> & ->).
  assert (forall f, rules !! f = None -> run_messages st !! f = None) as Hnone.
  { intros f Hf.
    destruct (validateFields_frame lib reg inputs fields start st f) as [-> _]; [|done..].
    rewrite (range_order_names rules fields f Hord), Hf. by intros [? ?]. }
  split; [|split; [done|]].
  - intros f. rewrite !elem_of_dom. intros [m Hm].
    destruct (rules !! f) eqn:E; [done|]. rewrite (Hnone f E) in Hm. done.
  - rewrite Nat.eqb_eq. apply map_size_empty_iff.
Qed.

Lemma Validate_messages_for_declared_fields_witness :
  dom sample_messages ⊆ dom sample_rules /\
  (forall fieldName,
     sample_rules !! fieldName = None -> sample_messages !! fieldName = None) /\
  (false = true <-> sample_messages = ∅).
Proof.
  apply (Validate_messages_for_declared_fields null_lib (builtin null_lib)
           sample_inputs sample_rules
           [("name", "required|alpha"); ("age", "integer|min_value:0")] false
           sample_messages
           [ {| call_field := "name"; call_rule := "required";
                call_value := "Bob123"; call_params := [] |};
             {| call_field := "name"; call_rule := "alpha";
                call_value := "Bob123"; call_params := [] |};
             {| call_field := "age"; call_rule := "integer";
                call_value := "-5"; call_params := [] |};
             {| call_field := "age"; call_rule := "min_value";
                call_value := "-5"; call_params := ["0"] |} ]).
  - unfold range_order. vm_compute. apply perm_swap.
  - vm_compute. reflexivity.
Defined.

(** ** Message construction *)

Section Formatting.

Variable lib : GoLib.

Lemma string_app_cons (c : ascii) (s t : string) :
  String c s +:+ t = String c (s +:+ t).
Proof. reflexivity. Qed.

Lemma string_app_nil_r (s : string) : s +:+ "" = s.
Proof. induction s as [|c s IH]; [done|]. by rewrite string_app_cons, IH. Qed.

Lemma doPrintf_text (text rest : string) (a : list string) (argNum : nat) :
  no_percent text = true ->
  fmt.doPrintf lib (text +:+ rest) a argNum = text +:+ fmt.doPrintf lib rest a argNum.
Proof.
  induction text as [|c text IH]; [done|].
  cbn [no_percent]. intros [Hc Ht]%andb_true_iff.
  change (String c text +:+ rest) with (String c (text +:+ rest)).
  cbn [fmt.doPrintf]. apply negb_true_iff in Hc. rewrite Hc.
  by rewrite IH.
Qed.

Lemma doPrintf_placeholder (rest : string) (a : list string) (argNum : nat) :
  fmt.doPrintf lib ("%s" +:+ rest) a argNum
  = match a !! argNum with
    | Some operand => operand +:+ fmt.doPrintf lib rest a (S argNum)
    | None => "%!s(MISSING)" +:+ fmt.doPrintf lib rest a argNum
    end.
Proof. reflexivity. Qed.

Lemma extra_all_used (a : list string) : fmt.extra a (List.length a) = "".
Proof. unfold fmt.extra. by rewrite skipn_all. Qed.

Lemma doPrintf_template (pieces used args : list string) :
  forallb no_percent pieces = true ->
  List.length pieces = S (List.length args) ->
  fmt.doPrintf lib (template pieces) (used ++ args) (List.length used)
  = substitute pieces args.
Proof.
  revert used args. induction pieces as [|piece pieces IH]; intros used args Hp Hlen.
  - discriminate.
  - cbn [forallb] in Hp. apply andb_true_iff in Hp as [Hpiece Hp].
    destruct pieces as [|piece' pieces].
    + destruct args; [|discriminate].
      cbn [template String.concat substitute].
      rewrite <- (string_app_nil_r piece) at 1.
      rewrite doPrintf_text by done. cbn [fmt.doPrintf].
      rewrite app_nil_r, extra_all_used. apply string_app_nil_r.
    + destruct args as [|arg args]; [discriminate|].
      change (template (piece :: piece' :: pieces))
        with (piece +:+ "%s" +:+ template (piece' :: pieces)).
      rewrite doPrintf_text by done. rewrite doPrintf_placeholder.
      rewrite lookup_app_r by done. rewrite Nat.sub_diag. cbn [lookup list_lookup].
      change (substitute (piece :: piece' :: pieces) (arg :: args))
        with (piece +:+ arg +:+ substitute (piece' :: pieces) args).
      do 2 f_equal.
      specialize (IH (used ++ [arg])%list args Hp).
      rewrite <- app_assoc, length_app in IH. cbn in IH.
      rewrite Nat.add_1_r in IH. apply IH.
      cbn in Hlen. lia.
Qed.

Lemma Sprintf_template (pieces args : list string) :
  forallb no_percent pieces = true ->
  List.length pieces = S (List.length args) ->
  fmt.Sprintf lib (template pieces) args = substitute pieces args.
Proof. intros Hp Hlen. apply (doPrintf_template pieces [] args Hp Hlen). Qed.

Lemma Sprintf_generic (fieldName : string) :
  fmt.Sprintf lib "The %s is invalid." [fieldName] = generic_message fieldName.
Proof.
  apply (Sprintf_template ["The "; " is invalid."] [fieldName]); reflexivity.
Qed.

Lemma Count_text (text rest : string) :
  no_percent text = true ->
  strings.Count (text +:+ rest) "%s" = strings.Count rest "%s".
Proof.
  unfold strings.Count.
  induction text as [|c text IH]; [done|].
  cbn [no_percent]. intros [Hc Ht]%andb_true_iff. apply negb_true_iff in Hc.
  change (String c text +:+ rest) with (String c (text +:+ rest)).
  cbn [strings.Count_from strings.HasPrefix]. rewrite Hc. cbn [andb].
  by apply IH.
Qed.

Lemma Count_placeholder (rest : string) :
  strings.Count ("%s" +:+ rest) "%s" = S (strings.Count rest "%s").
Proof. reflexivity. Qed.

Lemma Count_template (pieces : list string) :
  forallb no_percent pieces = true ->
  strings.Count (template pieces) "%s" = List.length pieces - 1.
Proof.
  induction pieces as [|piece pieces IH]; [done|].
  cbn [forallb]. intros [Hpiece Hp]%andb_true_iff.
  destruct pieces as [|piece' pieces].
  - cbn [template String.concat]. rewrite <- (string_app_nil_r piece).
    by rewrite Count_text.
  - change (template (piece :: piece' :: pieces))
      with (piece +:+ "%s" +:+ template (piece' :: pieces)).
    rewrite Count_text by done. rewrite Count_placeholder, IH by done.
    cbn [List.length]. lia.
Qed.

End Formatting.

Lemma buildErrorMessage_cases (lib : GoLib) (reg : Registry)
    (fieldName rule : string) (params : list string) :
  buildErrorMessage lib reg fieldName rule params
  = match messages reg !! rule with
    | Some message =>
        if strings.Count message "%s" =? 1 + List.length params
        then fmt.Sprintf lib message (fieldName :: params)
        else generic_message fieldName
    | None => generic_message fieldName
    end.
Proof.
  unfold buildErrorMessage, comma_ok.
  rewrite Sprintf_generic.
  destruct (messages reg !! rule) as [message|]; [|done].
  cbn [negb orb]. by destruct (_ =? _).
Qed.

(** For a template given by its text pieces, with a [%s] between
    consecutive pieces, the message is the pieces with the field name and
    then each parameter between them. *)
Lemma buildErrorMessage_pieces (lib : GoLib) (reg : Registry)
    (fieldName rule : string) (params pieces : list string) :
  forallb no_percent pieces = true ->
  messages reg !! rule = Some (template pieces) ->
  List.length pieces = 2 + List.length params ->
  (forall reg' rule' params',
     buildErrorMessage lib reg' fieldName rule' params'
     = match messages reg' !! rule' with
       | Some message =>
           if strings.Count message "%s" =? 1 + List.length params'
           then fmt.Sprintf lib message (fieldName :: params')
           else generic_message fieldName
       | None => generic_message fieldName
       end) /\
  buildErrorMessage lib reg fieldName rule params
  = substitute pieces (fieldName :: params).
Proof.
  intros Hp Ht Hlen.
  split; [intros reg' rule' params'; apply buildErrorMessage_cases|].
  rewrite buildErrorMessage_cases, Ht, Count_template by done.
  replace (List.length pieces - 1 =? 1 + List.length params) with true
    by (symmetry; apply Nat.eqb_eq; lia).
  apply Sprintf_template; [done|]. cbn [List.length]. lia.
Qed.

Lemma Count_other_byte (lib : GoLib) (c : ascii) (rest : string) :
  Ascii.eqb c "%" = false ->
  strings.Count (String c rest) "%s" = strings.Count rest "%s".
Proof.
  intros Hc. unfold strings.Count. cbn [strings.Count_from strings.HasPrefix].
  by rewrite Hc.
Qed.

(** On a plain template with as many placeholders as operands,
    [fmt.Sprintf] is positional substitution. *)
Lemma doPrintf_plain (lib : GoLib) (n : nat) :
  forall (t : string) (used args : list string),
    String.length t <= n ->
    plain_template t = true ->
    strings.Count t "%s" = List.length args ->
    fmt.doPrintf lib t (used ++ args) (List.length used) = substitute_positionally t args.
Proof.
  induction n as [|n IH]; intros t used args Hlen Hplain Hcount.
  - destruct t; [|cbn in Hlen; lia].
    destruct args; [|discriminate]. cbn [fmt.doPrintf substitute_positionally].
    by rewrite app_nil_r, extra_all_used.
  - destruct t as [|c rest].
    { destruct args; [|discriminate]. cbn [fmt.doPrintf substitute_positionally].
      by rewrite app_nil_r, extra_all_used. }
    cbn [String.length] in Hlen.
    cbn [plain_template] in Hplain. cbn [fmt.doPrintf substitute_positionally].
    destruct (Ascii.eqb c "%") eqn:Hc.
    + destruct rest as [|d rest']; [discriminate|].
      apply andb_true_iff in Hplain as [Hd Hplain]. rewrite Hd.
      apply Ascii.eqb_eq in Hc, Hd. subst c d.
      change (String "%" (String "s" rest')) with ("%s" +:+ rest') in Hcount.
      rewrite Count_placeholder in Hcount.
      destruct args as [|arg args]; [discriminate|].
      rewrite lookup_app_r by done. rewrite Nat.sub_diag. cbn [lookup list_lookup].
      f_equal.
      specialize (IH rest' (used ++ [arg])%list args).
      rewrite <- app_assoc, length_app in IH. cbn [List.length app] in IH.
      rewrite Nat.add_1_r in IH. apply IH; [cbn [String.length] in Hlen; lia|done|].
      cbn [List.length] in Hcount. lia.
    + f_equal. apply IH; [lia|done|].
      by rewrite (Count_other_byte lib) in Hcount.
Qed.

(** C7, amended. The message for a failing rule is exactly the generic
    "The <field> is invalid." when the rule has no template or when the
    template's count of [%s] differs from one plus the number of
    parameters.  Otherwise, when every percent sign of the template
    begins a [%s] placeholder, it is the template with the field name and
    then each parameter substituted positionally; for any other template
    it is what [fmt.Sprintf] makes of the template, the field name and
    the parameters. *)
Theorem buildErrorMessage_amended (lib : GoLib) (reg : Registry)
    (fieldName rule : string) (params : list string) :
  buildErrorMessage lib reg fieldName rule params
  = match messages reg !! rule with
    | Some message =>
        if strings.Count message "%s" =? 1 + List.length params
        then (if plain_template message
              then substitute_positionally message (fieldName :: params)
              else fmt.Sprintf lib message (fieldName :: params))
        else generic_message fieldName
    | None => generic_message fieldName
    end.
Proof.
  rewrite buildErrorMessage_cases.
  destruct (messages reg !! rule) as [message|]; [|done].
  destruct (Nat.eqb_spec (strings.Count message "%s") (1 + List.length params)) as [Hcount|];
    [|done].
  destruct (plain_template message) eqn:Hplain; [|done].
  apply (doPrintf_plain lib (String.length message) message [] (fieldName :: params));
    [lia|done|done].
Qed.

(** C7 as worded does not hold: the template ["%%s %s"] has two instances
    of [%s], so with one parameter the count fits, but the first instance
    is the tail of an escaped percent sign.  The message built is not the
    positional substitution, and not the generic message either. *)
Lemma buildErrorMessage_not_as_specified :
  buildErrorMessage null_lib escaped_registry "field" "odd" ["p"]
    = "%s field%!(EXTRA string=p)" /\
  message_as_specified escaped_registry "field" "odd" ["p"] = "%field p" /\
  buildErrorMessage null_lib escaped_registry "field" "odd" ["p"]
    <> message_as_specified escaped_registry "field" "odd" ["p"].
Proof.
  assert (buildErrorMessage null_lib escaped_registry "field" "odd" ["p"]
          = "%s field%!(EXTRA string=p)") as Hcode by (by vm_compute).
  assert (message_as_specified escaped_registry "field" "odd" ["p"] = "%field p") as Hspec
    by (by vm_compute).
  split; [done|]. split; [done|]. rewrite Hcode, Hspec. discriminate.
Qed.

Example buildErrorMessage_same :
  buildErrorMessage null_lib (builtin null_lib) "password_confirmation" "same" ["password"]
  = "The password_confirmation and password must match.".
Proof. by vm_compute. Qed.

Example buildErrorMessage_chars_between :
  buildErrorMessage null_lib (builtin null_lib) "name" "chars_between" ["3"; "6"]
  = "The name is invalid.".
Proof. by vm_compute. Qed.

(** The formatting is Go's: an escaped percent sign in a registered
    template is printed as one percent sign. *)
Example buildErrorMessage_escaped_percent (lib : GoLib) (reg : Registry) (fieldName : string) :
  buildErrorMessage lib (AddValidator "share" (validateNumeric lib) "100%% of %s" reg)
    fieldName "share" []
  = "100% of " +:+ fieldName.
Proof.
  rewrite buildErrorMessage_cases. cbn [AddValidator messages].
  rewrite lookup_insert_eq. cbn -[String.append].
  by rewrite string_app_nil_r.
Qed.

(** With the built-in table, the message of an absent required field. *)
Lemma buildErrorMessage_required (lib : GoLib) (fieldName : string) :
  buildErrorMessage lib (builtin lib) fieldName "required" []
  = "The " +:+ fieldName +:+ " field is required.".
Proof.
  unfold buildErrorMessage, comma_ok.
  replace (messages (builtin lib) !! "required") with (Some "The %s field is required.")
    by (by vm_compute).
  cbn [negb orb]. change (strings.Count _ _ =? _) with true. cbn [negb].
  apply (Sprintf_template lib ["The "; " field is required."] [fieldName]); reflexivity.
Qed.

(** * Further properties of validator.go *)

(** ** The predicates *)

Lemma stringInSlice_decide (needle : string) (haystack : list string) :
  stringInSlice needle haystack = bool_decide (needle ∈ haystack).
Proof.
  induction haystack as [|val haystack IH]; cbn [stringInSlice].
  - symmetry. apply bool_decide_eq_false. by intros ?%elem_of_nil.
  - destruct (decide (val = needle)) as [->|Hne].
    + rewrite (bool_decide_eq_true_2 (needle = needle)) by done.
      symmetry. apply bool_decide_eq_true. by left.
    + rewrite (bool_decide_eq_false_2 (val = needle)) by done.
      rewrite IH. apply bool_decide_ext. rewrite elem_of_cons.
      split; [by right|]. intros [?|?]; [congruence|done].
Qed.

(** X1. [stringInSlice] decides membership. *)
Theorem stringInSlice_elem_of (needle : string) (haystack : list string) :
  stringInSlice needle haystack = true <-> needle ∈ haystack.
Proof. rewrite stringInSlice_decide. apply bool_decide_eq_true. Qed.

(** X2. [in] accepts exactly the listed parameters and [not_in] exactly
    the others; neither looks at anything else, and neither panics. *)
Theorem validateIn_validateNotIn (name value : string) (inputs : gmap string string)
    (params : list string) :
  validateIn name value inputs params = Ok (bool_decide (value ∈ params)) /\
  validateNotIn name value inputs params = Ok (bool_decide (value ∉ params)).
Proof.
  unfold validateIn, validateNotIn. rewrite stringInSlice_decide.
  split; [done|]. f_equal. by repeat case_bool_decide.
Qed.

Example validateIn_colours :
  Forall (fun value => validateIn "colour" value ∅ ["red"; "green"; "blue"] = Ok true)
         ["red"; "green"; "blue"] /\
  Forall (fun value => validateIn "colour" value ∅ ["red"; "green"; "blue"] = Ok false)
         ["purple"; ""].
Proof. split; repeat constructor. Qed.

Lemma validateSame_cases (name value : string) (inputs : gmap string string)
    (params : list string) :
  validateSame name value inputs params
  = Ok (match params with
        | [other] => bool_decide (inputs !! other = Some value)
        | _ => false
        end).
Proof.
  unfold validateSame, comma_ok.
  destruct params as [|other [|? ?]]; [done| |done]. cbn.
  destruct (inputs !! other) as [v|]; cbn; f_equal;
    repeat case_bool_decide; congruence.
Qed.

(** X3. [same] never panics, and accepts exactly when it is given one
    parameter and the field of that name is present with the same value;
    with no parameter, or several, it rejects. *)
Theorem validateSame_iff (name value : string) (inputs : gmap string string)
    (params : list string) :
  returned (validateSame name value inputs params) /\
  (validateSame name value inputs params = Ok true
   <-> exists other, params = [other] /\ inputs !! other = Some value).
Proof.
  rewrite validateSame_cases. split; [by eexists|].
  destruct params as [|other [|? ?]].
  - split; [discriminate|]. by intros (? & ? & ?).
  - split.
    + intros [=H]. apply bool_decide_eq_true in H. by exists other.
    + intros (o & [= <-] & H). f_equal. by apply bool_decide_eq_true.
  - split; [discriminate|]. by intros (? & ? & ?).
Qed.

(** X4. [different] is the negation of [same], so it never panics and it
    accepts whenever [same] rejects: also when the other field is absent,
    and when it is given no parameter or several. *)
Theorem validateDifferent_iff (name value : string) (inputs : gmap string string)
    (params : list string) :
  returned (validateDifferent name value inputs params) /\
  (validateDifferent name value inputs params = Ok true
   <-> ~ exists other, params = [other] /\ inputs !! other = Some value).
Proof.
  unfold validateDifferent. rewrite validateSame_cases. cbn.
  split; [by eexists|].
  destruct params as [|other [|? ?]]; cbn.
  - split; [|done]. intros _ (? & ? & ?). done.
  - case_bool_decide as H; cbn.
    + split; [discriminate|]. intros Hn. destruct Hn. by exists other.
    + split; [|done]. intros _ (o & [= <-] & ?). done.
  - split; [|done]. intros _ (? & ? & ?). done.
Qed.

(** X5. [confirmed] is [same] against the field named after this one with
    the suffix [_confirmation]: it accepts exactly when that field is
    present with the same value, and its own parameters are not looked
    at. *)
Theorem validateConfirmed_same (name value : string) (inputs : gmap string string)
    (params : list string) :
  validateConfirmed name value inputs params
    = validateSame name value inputs [name +:+ "_confirmation"] /\
  (validateConfirmed name value inputs params = Ok true
   <-> inputs !! (name +:+ "_confirmation") = Some value).
Proof.
  rewrite validateSame_cases.
  assert (validateConfirmed name value inputs params
          = Ok (bool_decide (inputs !! (name +:+ "_confirmation") = Some value))) as ->.
  { unfold validateConfirmed, comma_ok.
    destruct (inputs !! _) as [v|]; cbn; f_equal;
      repeat case_bool_decide; congruence. }
  split; [done|]. split.
  - intros [=H]. by apply bool_decide_eq_true in H.
  - intros H. f_equal. by apply bool_decide_eq_true.
Qed.

(** X6. The three character-count rules accept nothing: [min_chars] and
    [max_chars] panic when given one parameter and reject otherwise, and
    [chars_between] panics when given two parameters and rejects
    otherwise. *)
Theorem chars_rules_never_accept (name value : string) (inputs : gmap string string)
    (params : list string) :
  validateMinChars name value inputs params
    = (if List.length params =? 1 then Panic (IndexOutOfRange 1 1) else Ok false) /\
  validateMaxChars name value inputs params
    = (if List.length params =? 1 then Panic (IndexOutOfRange 1 1) else Ok false) /\
  validateCharsBetween name value inputs params
    = (if List.length params =? 2 then Panic (IndexOutOfRange 1 1) else Ok false).
Proof.
  unfold validateMinChars, validateMaxChars, validateCharsBetween.
  destruct params as [|a [|b [|c params]]]; done.
Qed.

Lemma decimal_nonneg (s : string) (acc : Z) : (0 <= acc -> 0 <= strconv.decimal acc s)%Z.
Proof.
  revert acc. induction s as [|c s IH]; intros acc Hacc; cbn [strconv.decimal]; [done|].
  apply IH. lia.
Qed.

(** A parsed integer fits the bit size. *)
Lemma ParseInt10_range (s : string) (bitSize : nat) (n : Z) :
  strconv.ParseInt10 s bitSize = Some n ->
  (- 2 ^ (Z.of_nat bitSize - 1) <= n < 2 ^ (Z.of_nat bitSize - 1))%Z \/ (n <= 0)%Z.
Proof.
  unfold strconv.ParseInt10.
  match goal with |- context [let '(_, _) := ?x in _] => destruct x as [neg digits] end.
  pose proof (decimal_nonneg digits 0 ltac:(done)) as Hnn.
  destruct digits as [|c digits]; [discriminate|].
  destruct (strconv.all_digits _); [|discriminate].
  destruct neg.
  - destruct (Z.leb_spec (strconv.decimal 0 (String c digits)) (2 ^ (Z.of_nat bitSize - 1)));
      [|discriminate].
    intros [= <-]. right. cbn [strconv.decimal] in Hnn. lia.
  - destruct (Z.ltb_spec (strconv.decimal 0 (String c digits)) (2 ^ (Z.of_nat bitSize - 1)));
      [|discriminate].
    intros [= <-]. left. cbn [strconv.decimal] in *. lia.
Qed.

(** X7. When [chars] accepts, it was given exactly one parameter, the
    parameter parses as a 16-bit integer equal to the value's length, and
    so the value is shorter than 32768 bytes: longer values are rejected
    whatever the parameter says. *)
Theorem validateChars_accepts (name value : string) (inputs : gmap string string)
    (params : list string) :
  validateChars name value inputs params = Ok true ->
  exists p, params = [p] /\
    strconv.ParseInt10 p 16 = Some (Z.of_nat (String.length value)) /\
    (Z.of_nat (String.length value) < 32768)%Z.
Proof.
  unfold validateChars, parsed, len.
  destruct params as [|p [|? ?]]; cbn; [discriminate| |discriminate].
  destruct (strconv.ParseInt10 p 16) as [n|] eqn:E; [|discriminate].
  intros [=H]. apply Z.eqb_eq in H. subst n.
  exists p. split; [done|]. split; [done|].
  apply ParseInt10_range in E. change (2 ^ (Z.of_nat 16 - 1))%Z with 32768%Z in E.
  lia.
Qed.

Lemma validateChars_accepts_witness :
  exists p, ["3"] = [p] /\
    strconv.ParseInt10 p 16 = Some (Z.of_nat (String.length "abc")) /\
    (Z.of_nat (String.length "abc") < 32768)%Z.
Proof.
  apply (validateChars_accepts "code" "abc" ∅ ["3"]). reflexivity.
Defined.

Section Returns.

Variable lib : GoLib.

Ltac returns :=
  intros;
  repeat match goal with
  | |- context [List.length ?params =? _] =>
      destruct params as [|? [|? [|? ?]]]; cbn [List.length Nat.eqb andb]
  end;
  cbn; unfold and_then; cbn;
  repeat match goal with |- context [if ?b then _ else _] => destruct b; cbn end;
  by eexists.

Lemma validateMinDigits_returns name value inputs params :
  returned (validateMinDigits lib name value inputs params).
Proof. unfold validateMinDigits. returns. Qed.

Lemma validateMaxDigits_returns name value inputs params :
  returned (validateMaxDigits lib name value inputs params).
Proof. unfold validateMaxDigits. returns. Qed.

Lemma validateMinValue_returns name value inputs params :
  returned (validateMinValue lib name value inputs params).
Proof. unfold validateMinValue. returns. Qed.

Lemma validateMaxValue_returns name value inputs params :
  returned (validateMaxValue lib name value inputs params).
Proof. unfold validateMaxValue. returns. Qed.

Lemma and_then_true (a b : outcome bool) :
  returned a -> returned b ->
  returned (and_then a b) /\ (and_then a b = Ok true <-> a = Ok true /\ b = Ok true).
Proof.
  intros [x ->] [y ->]. unfold and_then; cbn.
  destruct x, y; (split; [by eexists|]); intuition congruence.
Qed.

(** X8. [digits_between] and [value_between] never panic; given two
    parameters they accept exactly when the minimum rule accepts the
    first and the maximum rule accepts the second, and given any other
    number of parameters they reject. *)
Theorem between_rules_compose (name value : string) (inputs : gmap string string)
    (params : list string) :
  returned (validateDigitsBetween lib name value inputs params) /\
  (validateDigitsBetween lib name value inputs params = Ok true
   <-> exists lo hi, params = [lo; hi] /\
         validateMinDigits lib name value inputs [lo] = Ok true /\
         validateMaxDigits lib name value inputs [hi] = Ok true) /\
  returned (validateValueBetween lib name value inputs params) /\
  (validateValueBetween lib name value inputs params = Ok true
   <-> exists lo hi, params = [lo; hi] /\
         validateMinValue lib name value inputs [lo] = Ok true /\
         validateMaxValue lib name value inputs [hi] = Ok true).
Proof.
  assert (forall b : bool, returned (Ok b)) as Hret by (by eexists).
  unfold validateDigitsBetween, validateValueBetween.
  destruct params as [|lo [|hi [|? ?]]]; cbn [List.length Nat.eqb].
  1, 2, 4: split; [apply Hret|]; split;
    [split; [discriminate|by intros (? & ? & ? & _)]|];
    split; [apply Hret|split; [discriminate|by intros (? & ? & ? & _)]].
  cbn [index lookup list_lookup mbind outcome_bind].
  destruct (and_then_true _ _ (validateMinDigits_returns name value inputs [lo])
              (validateMaxDigits_returns name value inputs [hi])) as [Hd1 Hd2].
  destruct (and_then_true _ _ (validateMinValue_returns name value inputs [lo])
              (validateMaxValue_returns name value inputs [hi])) as [Hv1 Hv2].
  split; [done|]. split; [|split; [done|]].
  - rewrite Hd2. split; [by exists lo, hi|]. by intros (? & ? & [= <- <-] & ?).
  - rewrite Hv2. split; [by exists lo, hi|]. by intros (? & ? & [= <- <-] & ?).
Qed.

(** X9. Every value [active_url] accepts is accepted by [url]. *)
Theorem validateActiveUrl_validateUrl (name value : string) (inputs : gmap string string)
    (params : list string) :
  validateActiveUrl lib name value inputs params = Ok true ->
  validateUrl lib name value inputs params = Ok true.
Proof.
  unfold validateActiveUrl, validateUrl.
  by destruct (validScheme (strings_ToLower lib value)).
Qed.

End Returns.

Lemma validateActiveUrl_validateUrl_witness :
  validateUrl yes_lib "site" "https://example.com" ∅ [] = Ok true.
Proof.
  apply (validateActiveUrl_validateUrl yes_lib "site" "https://example.com" ∅ []).
  reflexivity.
Defined.

(** ** Where a run can panic *)

Ltac predicate_returns :=
  intros;
  unfold validateAccepted, validateActiveUrl, validateAlpha, validateAlphaDash,
    validateAlphaNumeric, validateBoolean, validateChars, validateConfirmed, validateDate,
    validateDifferent, validateDigits, validateDigitsBetween, validateEmail, validateIn,
    validateInteger, validateIp, validateMaxDigits, validateMaxValue, validateMinDigits,
    validateMinValue, validateNotIn, validateNumeric, validateRegex, validateRequired,
    validateSame, validateUrl, validateValue, validateValueBetween, and_then, comma_ok;
  repeat match goal with
  | |- context [List.length ?ps =? _] =>
      is_var ps; destruct ps as [|? [|? [|? ?]]]; cbn [List.length Nat.eqb andb]
  end;
  cbn;
  repeat match goal with
  | |- context [if ?b then _ else _] => destruct b; cbn
  | |- context [match ?x with _ => _ end] => destruct x; cbn
  end;
  by eexists.

Lemma builtin_returns (lib : GoLib) (rule : string)
    (vFn : string -> string -> gmap string string -> list string -> outcome bool) :
  builtin_validators lib !! rule = Some vFn ->
  rule ∉ chars_rules ->
  forall name value inputs params, returned (vFn name value inputs params).
Proof.
  intros H Hnot. unfold builtin_validators in H.
  apply elem_of_list_to_map_2 in H.
  repeat (apply elem_of_cons in H as [H|H];
          [injection H as -> ->;
           first [ by (exfalso; apply Hnot; unfold chars_rules; set_solver)
                 | predicate_returns ] |]).
  by apply elem_of_nil in H.
Qed.

(** X10. Of the predicates the package starts with, the three
    character-count rules are the only ones that can panic: any other
    returns for every field name, value, inputs and parameter list. *)
Theorem builtin_panic_free_iff (lib : GoLib) (rule : string)
    (vFn : string -> string -> gmap string string -> list string -> outcome bool) :
  validators (builtin lib) !! rule = Some vFn ->
  (forall name value inputs params, returned (vFn name value inputs params))
  <-> rule ∉ chars_rules.
Proof.
  intros H. split; [|exact (builtin_returns lib rule vFn H)].
  intros Hret Hin. unfold chars_rules in Hin.
  assert (exists params, vFn "" "" ∅ params = Panic (IndexOutOfRange 1 1)) as [params Hp].
  { cbn [builtin validators] in H.
    repeat (apply elem_of_cons in Hin as [->|Hin]);
      [exists ["1"]|exists ["1"]|exists ["1"; "2"]|by apply elem_of_nil in Hin];
      vm_compute in H; by injection H as <-. }
  destruct (Hret "" "" ∅ params) as [b Hb]. congruence.
Qed.

Lemma builtin_panic_free_iff_witness :
  (forall name value inputs params, returned (validateAlpha null_lib name value inputs params))
  <-> "alpha" ∉ chars_rules.
Proof.
  apply (builtin_panic_free_iff null_lib "alpha" (validateAlpha null_lib)).
  vm_compute. reflexivity.
Defined.

Section ReturnsIf.

Variable lib : GoLib.
Variable reg : Registry.
Variable inputs : gmap string string.

Lemma applyRules_returns_if f v tokens st :
  Forall (token_safe reg inputs f v) tokens ->
  returned (applyRules lib reg inputs f v tokens st).
Proof.
  intros Hall. revert st.
  induction Hall as [|token tokens Htoken _ IH]; intros st; [by eexists|].
  cbn [applyRules]. rewrite applyRule_judge.
  assert (returned (judge reg inputs f v token)) as [x ->]; [|apply IH].
  unfold judge. destruct (splitRuleParams_returns token) as [[rule params] Hparse].
  rewrite Hparse. cbn.
  destruct (validators reg !! rule) as [vFn|] eqn:E; [|by eexists].
  destruct (Htoken rule params vFn Hparse E) as [b ->]. by eexists.
Qed.

Lemma validateFields_returns_if fields st :
  Forall (fun field : string * string =>
            forall v, Forall (token_safe reg inputs (fst field) v) (strings.Split (snd field) "|"))
         fields ->
  returned (validateFields lib reg inputs fields st).
Proof.
  intros Hall. revert st.
  induction Hall as [|[f raw] fields Hfield _ IH]; intros st; [by eexists|].
  cbn [validateFields].
  assert (returned (validateField lib reg inputs f raw st)) as [st1 ->]; [|apply IH].
  unfold validateField. destruct (comma_ok inputs f) as [v e].
  destruct (_ && negb e); [by eexists|].
  destruct (_ || _); [|by eexists].
  apply applyRules_returns_if, Hfield.
Qed.

End ReturnsIf.

Lemma avoids_Forall (rules : list string) (fields : list (string * string)) :
  avoids rules fields = true <->
  Forall (fun field : string * string =>
            Forall (fun token => rule_name token ∉ rules) (strings.Split (snd field) "|"))
         fields.
Proof.
  unfold avoids. rewrite forallb_forall, Forall_forall.
  split; intros H field Hin.
  - apply Forall_forall. intros token Htoken.
    specialize (H field (proj1 (list_elem_of_In _ _) Hin)).
    rewrite forallb_forall in H.
    specialize (H token (proj1 (list_elem_of_In _ _) Htoken)).
    apply negb_true_iff in H. rewrite stringInSlice_decide in H.
    by apply bool_decide_eq_false in H.
  - apply forallb_forall. intros token Htoken.
    specialize (H field (proj2 (list_elem_of_In _ _) Hin)).
    rewrite Forall_forall in H.
    specialize (H token (proj2 (list_elem_of_In _ _) Htoken)).
    apply negb_true_iff. rewrite stringInSlice_decide.
    by apply bool_decide_eq_false.
Qed.

(** X11. With the registry the package starts with, [Validate] returns
    for all inputs, in every visiting order, as long as no rule token of
    the rules map names [min_chars], [max_chars] or [chars_between]. *)
Theorem Validate_returns_without_chars_rules (lib : GoLib)
    (inputs rules : gmap string string) (fields : list (string * string)) :
  range_order rules fields ->
  avoids chars_rules fields = true ->
  returned (ValidateIn lib (builtin lib) inputs fields) /\
  returned (Validate lib (builtin lib) inputs rules).
Proof.
  intros Hord Havoid.
  assert (forall l, avoids chars_rules l = true ->
                    returned (ValidateIn lib (builtin lib) inputs l)) as Hany.
  { intros l Hl. unfold ValidateIn.
    assert (returned (validateFields lib (builtin lib) inputs l start)) as [st ->];
      [|by eexists].
    apply validateFields_returns_if.
    apply avoids_Forall in Hl. eapply Forall_impl; [exact Hl|].
    intros [f raw] Htokens v. cbn [fst snd] in *.
    eapply Forall_impl; [exact Htokens|].
    intros token Hname rule params vFn Hparse Hlookup.
    unfold rule_name in Hname. rewrite Hparse in Hname.
    by apply (builtin_returns lib rule vFn). }
  split; [by apply Hany|].
  unfold Validate.
  destruct (Hany (map_to_list rules)) as [[[success msgs] calls] ->]; [|by eexists].
  apply avoids_Forall. apply avoids_Forall in Havoid.
  unfold range_order in Hord. by rewrite <- Hord.
Qed.

Lemma Validate_returns_without_chars_rules_witness :
  returned (ValidateIn yes_lib (builtin yes_lib) sample_inputs
              [("name", "required|alpha"); ("age", "integer|min_value:0")]) /\
  returned (Validate yes_lib (builtin yes_lib) sample_inputs sample_rules).
Proof.
  apply (Validate_returns_without_chars_rules yes_lib sample_inputs sample_rules
           [("name", "required|alpha"); ("age", "integer|min_value:0")]).
  - unfold range_order. vm_compute. apply perm_swap.
  - reflexivity.
Defined.

(** ** Registration *)

(** X12. After [AddValidator], a token that names the registered rule
    invokes the registered predicate, and on failure the field gets the
    message built from the registered template, whatever the registry
    held under that name before. *)
Theorem AddValidator_applies (lib : GoLib) (reg : Registry) (inputs : gmap string string)
    (name message fieldName fieldValue token : string) (params : list string)
    (fn : string -> string -> gmap string string -> list string -> outcome bool)
    (st : Run) :
  splitRuleParams token = Ok (name, params) ->
  applyRule lib (AddValidator name fn message reg) inputs fieldName fieldValue token st
  = valid ← fn fieldName fieldValue inputs params;
    let st' := record_call {| call_field := fieldName; call_rule := name;
                              call_value := fieldValue; call_params := params |} st in
    Ok (if (valid : bool) then st'
        else set_message fieldName
               (if strings.Count message "%s" =? 1 + List.length params
                then fmt.Sprintf lib message (fieldName :: params)
                else generic_message fieldName) st').
Proof.
  intros Hparse. unfold applyRule. rewrite Hparse.
  unfold mbind at 1, outcome_bind at 1. cbv beta iota.
  cbn [AddValidator validators]. rewrite lookup_insert_eq.
  destruct (fn fieldName fieldValue inputs params) as [[|]|p]; [done| |done].
  cbn. rewrite buildErrorMessage_cases. cbn [AddValidator messages].
  by rewrite lookup_insert_eq.
Qed.

Lemma AddValidator_applies_witness :
  applyRule null_lib
    (AddValidator "hello" (fun _ _ _ _ => Ok false) "Hello input: %s" (builtin null_lib))
    sample_inputs "name" "Bob123" "hello" start
  = Ok (set_message "name" "Hello input: name"
          (record_call {| call_field := "name"; call_rule := "hello";
                          call_value := "Bob123"; call_params := [] |} start)).
Proof.
  apply (AddValidator_applies null_lib (builtin null_lib) sample_inputs "hello"
           "Hello input: %s" "name" "Bob123" "hello" [] (fun _ _ _ _ => Ok false) start).
  reflexivity.
Defined.

(** X13. [AddValidator] leaves every other rule as it was: a token that
    names another rule is evaluated as before the registration. *)
Theorem AddValidator_other_rules (lib : GoLib) (reg : Registry) (inputs : gmap string string)
    (name message fieldName fieldValue token rule : string) (params : list string)
    (fn : string -> string -> gmap string string -> list string -> outcome bool)
    (st : Run) :
  splitRuleParams token = Ok (rule, params) ->
  rule ≠ name ->
  applyRule lib (AddValidator name fn message reg) inputs fieldName fieldValue token st
  = applyRule lib reg inputs fieldName fieldValue token st.
Proof.
  intros Hparse Hne. unfold applyRule. rewrite Hparse.
  unfold mbind at 1 3, outcome_bind at 1 3. cbv beta iota.
  cbn [AddValidator validators]. rewrite lookup_insert_ne by done.
  destruct (validators reg !! rule) as [vFn|]; [|done].
  destruct (vFn fieldName fieldValue inputs params) as [[|]|p]; [done| |done].
  cbn. rewrite !buildErrorMessage_cases. cbn [AddValidator messages].
  by rewrite lookup_insert_ne.
Qed.

Lemma AddValidator_other_rules_witness :
  applyRule null_lib
    (AddValidator "hello" (fun _ _ _ _ => Ok false) "Hello input: %s" (builtin null_lib))
    sample_inputs "name" "Bob123" "alpha" start
  = applyRule null_lib (builtin null_lib) sample_inputs "name" "Bob123" "alpha" start.
Proof.
  apply (AddValidator_other_rules null_lib (builtin null_lib) sample_inputs "hello"
           "Hello input: %s" "name" "Bob123" "alpha" "alpha" []
           (fun _ _ _ _ => Ok false) start).
  - reflexivity.
  - discriminate.
Defined.

(** X14. Registering a name twice keeps the later predicate and template
    only: the registry is the one the later registration alone gives. *)
Theorem AddValidator_twice (reg : Registry) (name message1 message2 : string)
    (fn1 fn2 : string -> string -> gmap string string -> list string -> outcome bool) :
  AddValidator name fn2 message2 (AddValidator name fn1 message1 reg)
  = AddValidator name fn2 message2 reg.
Proof.
  unfold AddValidator; cbn [validators messages].
  by rewrite !insert_insert_eq.
Qed.

(** ** How runs compose *)

(** X15. The order in which the rules map is visited does not matter to
    the result: if the run returns in one order, it returns the same
    success flag and the same messages in every other order, and that is
    what [Validate] returns. *)
Theorem ValidateIn_order_irrelevant (lib : GoLib) (reg : Registry)
    (inputs rules : gmap string string) (fields1 fields2 : list (string * string))
    (success : bool) (msgs : gmap string string) (calls : list Call) :
  range_order rules fields1 ->
  range_order rules fields2 ->
  ValidateIn lib reg inputs fields1 = Ok (success, msgs, calls) ->
  (exists calls', ValidateIn lib reg inputs fields2 = Ok (success, msgs, calls')) /\
  Validate lib reg inputs rules = Ok (success, msgs).
Proof.
  intros Hord1 Hord2 Hrun.
  split; [|by apply (Validate_any_order lib reg inputs rules fields1 success msgs calls)].
  unfold ValidateIn in *. bind_inv Hrun. simplify_eq.
  assert (fields1 ≡ₚ fields2) as Hperm.
  { unfold range_order in *. by rewrite Hord1, Hord2. }
  destruct (validateFields_Permutation lib reg inputs fields1 fields2 Hperm
              (range_order_NoDup rules fields1 Hord1) _ _ Hst) as (st' & H' & E).
  exists (run_calls st'). rewrite H'. cbn. by rewrite E.
Qed.

Lemma ValidateIn_order_irrelevant_witness :
  (exists calls', ValidateIn null_lib (builtin null_lib) sample_inputs
                    [("age", "integer|min_value:0"); ("name", "required|alpha")]
                  = Ok (false, sample_messages, calls')) /\
  Validate null_lib (builtin null_lib) sample_inputs sample_rules
  = Ok (false, sample_messages).
Proof.
  apply (ValidateIn_order_irrelevant null_lib (builtin null_lib) sample_inputs sample_rules
           [("name", "required|alpha"); ("age", "integer|min_value:0")]
           [("age", "integer|min_value:0"); ("name", "required|alpha")]
           false sample_messages
           [ {| call_field := "name"; call_rule := "required";
                call_value := "Bob123"; call_params := [] |};
             {| call_field := "name"; call_rule := "alpha";
                call_value := "Bob123"; call_params := [] |};
             {| call_field := "age"; call_rule := "integer";
                call_value := "-5"; call_params := [] |};
             {| call_field := "age"; call_rule := "min_value";
                call_value := "-5"; call_params := ["0"] |} ]).
  - unfold range_order. vm_compute. apply perm_swap.
  - unfold range_order. vm_compute. reflexivity.
  - vm_compute. reflexivity.
Defined.

Section Compose.

Variable lib : GoLib.
Variable reg : Registry.
Variable inputs : gmap string string.

Lemma validateFields_app l1 l2 st :
  validateFields lib reg inputs (l1 ++ l2) st
  = st1 ← validateFields lib reg inputs l1 st; validateFields lib reg inputs l2 st1.
Proof.
  revert st. induction l1 as [|[f raw] l1 IH]; intros st; [done|].
  cbn [app validateFields].
  destruct (validateField lib reg inputs f raw st) as [st1|p]; [|done].
  apply IH.
Qed.

(** A run from any state adds to the state's messages what the same run
    adds to none. *)
Lemma validateFields_shift fields sa sa' sb m0 :
  validateFields lib reg inputs fields sa = Ok sa' ->
  run_messages sb = run_messages sa ∪ m0 ->
  exists sb', validateFields lib reg inputs fields sb = Ok sb' /\
    run_messages sb' = run_messages sa' ∪ m0.
Proof.
  revert sa sb. induction fields as [|[f raw] fields IH]; intros sa sb H Hm.
  - simplify_eq/=. by exists sb.
  - cbn [validateFields] in *. bind_inv H.
    destruct (validateField_effect _ _ _ _ _ _ _ Hst) as (om & cs & Heff).
    rewrite Heff in Hst. simplify_eq. rewrite Heff. cbn.
    apply (IH _ _ H). unfold field_effect; cbn. rewrite Hm.
    destruct om; [|done]. by rewrite insert_union_l.
Qed.

End Compose.

Lemma map_to_list_disjoint_union (m1 m2 : gmap string string) :
  m1 ##ₘ m2 -> map_to_list (m1 ∪ m2) ≡ₚ map_to_list m2 ++ map_to_list m1.
Proof.
  intros Hdisj. apply NoDup_Permutation.
  - apply NoDup_map_to_list.
  - apply NoDup_app. split; [apply NoDup_map_to_list|]. split; [|apply NoDup_map_to_list].
    intros [k v] H2%elem_of_map_to_list H1%elem_of_map_to_list.
    by apply (map_disjoint_spec m1 m2) with k v v in Hdisj.
  - intros [k v]. rewrite elem_of_app, !elem_of_map_to_list.
    rewrite lookup_union_Some by done. tauto.
Qed.

Lemma Validate_Ok lib reg (inputs rules : gmap string string) success msgs :
  Validate lib reg inputs rules = Ok (success, msgs) ->
  exists st, validateFields lib reg inputs (map_to_list rules) start = Ok st /\
    success = (size (run_messages st) =? 0) /\ msgs = run_messages st.
Proof.
  unfold Validate, ValidateIn. intros H.
  destruct (validateFields lib reg inputs (map_to_list rules) start) as [st|p];
    [|discriminate].
  cbn in H. simplify_eq. by exists st.
Qed.

(** X16. Validating against two rule maps with no field in common and
    validating against their union agree: when both runs return, the run
    on the union returns the union of their messages, and succeeds
    exactly when both succeed. *)
Theorem Validate_disjoint_union (lib : GoLib) (reg : Registry)
    (inputs rules1 rules2 : gmap string string)
    (success1 success2 : bool) (msgs1 msgs2 : gmap string string) :
  rules1 ##ₘ rules2 ->
  Validate lib reg inputs rules1 = Ok (success1, msgs1) ->
  Validate lib reg inputs rules2 = Ok (success2, msgs2) ->
  Validate lib reg inputs (rules1 ∪ rules2) = Ok (success1 && success2, msgs1 ∪ msgs2).
Proof.
  intros Hdisj H1 H2.
  apply Validate_Ok in H1 as (s1 & Hst0 & -> & ->).
  apply Validate_Ok in H2 as (s2 & Hst1 & -> & ->).
  unfold Validate, ValidateIn.
  destruct (validateFields_shift lib reg inputs (map_to_list rules1) start s1 s2
              (run_messages s2) Hst0) as (s12 & H12 & E12).
  { cbn. by rewrite (left_id ∅ (∪)). }
  assert (validateFields lib reg inputs (map_to_list rules2 ++ map_to_list rules1) start
          = Ok s12) as Happ.
  { rewrite validateFields_app, Hst1. exact H12. }
  destruct (validateFields_Permutation lib reg inputs _ (map_to_list (rules1 ∪ rules2))
              (symmetry (map_to_list_disjoint_union rules1 rules2 Hdisj))) with start s12
    as (s & Hs & Es); [|done|].
  { rewrite <- (map_to_list_disjoint_union rules1 rules2 Hdisj).
    apply NoDup_fst_map_to_list. }
  rewrite Hs. cbn. rewrite Es, E12. do 2 f_equal.
  destruct (Nat.eqb_spec (size (run_messages s1)) 0) as [Z1|N1];
    destruct (Nat.eqb_spec (size (run_messages s2)) 0) as [Z2|N2]; cbn.
  - apply map_size_empty_iff in Z1, Z2. rewrite Z1, Z2, (left_id ∅ (∪)).
    by rewrite map_size_empty.
  - apply Nat.eqb_neq. intros Z%map_size_empty_iff.
    apply N2, map_size_empty_iff. apply map_positive_l with (run_messages s1).
    rewrite map_union_comm; [done|].
    apply map_size_empty_iff in Z1. rewrite Z1. apply map_disjoint_empty_r.
  - apply Nat.eqb_neq. intros Z%map_size_empty_iff.
    by apply N1, map_size_empty_iff, map_positive_l with (run_messages s2).
  - apply Nat.eqb_neq. intros Z%map_size_empty_iff.
    by apply N1, map_size_empty_iff, map_positive_l with (run_messages s2).
Qed.

Lemma Validate_disjoint_union_witness :
  Validate null_lib (builtin null_lib) sample_inputs
    ({["name" := "required|alpha"]} ∪ {["age" := "integer|min_value:0"]})
  = Ok (false && false,
        {["name" := "The name may only contain letters."]}
        ∪ {["age" := "The age must be greater than 0."]}).
Proof.
  apply (Validate_disjoint_union null_lib (builtin null_lib) sample_inputs
           {["name" := "required|alpha"]} {["age" := "integer|min_value:0"]}
           false false).
  - apply map_disjoint_singleton_l_2. reflexivity.
  - unfold Validate. rewrite map_to_list_singleton. vm_compute. reflexivity.
  - unfold Validate. rewrite map_to_list_singleton. vm_compute. reflexivity.
Defined.

(** ** Writing and parsing rule tokens *)

Lemma Split_lacks (sep : ascii) (s : string) :
  lacks sep s = true -> strings.Split s sep = [s].
Proof.
  induction s as [|c s IH]; [done|].
  cbn [lacks strings.Split]. intros [Hc Hs]%andb_true_iff.
  apply negb_true_iff in Hc. rewrite Hc. by rewrite IH.
Qed.

Lemma Split_app_sep (sep : ascii) (a b : string) :
  lacks sep a = true ->
  strings.Split (a +:+ String sep b) sep = a :: strings.Split b sep.
Proof.
  induction a as [|c a IH].
  - intros _. change ("" +:+ String sep b) with (String sep b).
    cbn [strings.Split]. by rewrite Ascii.eqb_refl.
  - cbn [lacks]. intros [Hc Ha]%andb_true_iff. apply negb_true_iff in Hc.
    rewrite string_app_cons. cbn [strings.Split]. rewrite Hc. by rewrite IH.
Qed.

Lemma Split_concat (sep : ascii) (l : list string) :
  forallb (lacks sep) l = true ->
  l ≠ [] ->
  strings.Split (String.concat (String sep EmptyString) l) sep = l.
Proof.
  induction l as [|x l IH]; [done|].
  cbn [forallb]. intros [Hx Hl]%andb_true_iff _.
  destruct l as [|y l].
  - cbn [String.concat]. by apply Split_lacks.
  - change (String.concat (String sep "") (x :: y :: l))
      with (x +:+ String sep (String.concat (String sep "") (y :: l))).
    rewrite Split_app_sep by done. by rewrite IH.
Qed.

Lemma lacks_app (sep : ascii) (a b : string) :
  lacks sep (a +:+ b) = lacks sep a && lacks sep b.
Proof.
  induction a as [|c a IH]; [done|].
  rewrite string_app_cons. cbn [lacks]. by rewrite IH, andb_assoc.
Qed.

Lemma lacks_concat (c sep : ascii) (l : list string) :
  Ascii.eqb sep c = false ->
  forallb (lacks c) l = true ->
  lacks c (String.concat (String sep EmptyString) l) = true.
Proof.
  intros Hsep. induction l as [|x l IH]; [done|].
  cbn [forallb]. intros [Hx Hl]%andb_true_iff.
  destruct l as [|y l]; [done|].
  change (String.concat (String sep "") (x :: y :: l))
    with (x +:+ String sep (String.concat (String sep "") (y :: l))).
  rewrite lacks_app, Hx. cbn [lacks andb]. rewrite Hsep. by apply IH.
Qed.

(** X17. Writing a rule and its parameters as a token and parsing the
    token gives the rule and the parameters back, provided the rule name
    has no colon and no parameter has a colon or a comma. *)
Theorem splitRuleParams_token_of (rule : string) (params : list string) :
  lacks ":" rule = true ->
  forallb (lacks ":") params = true ->
  forallb (lacks ",") params = true ->
  splitRuleParams (token_of rule params) = Ok (rule, params).
Proof.
  intros Hrule Hcolon Hcomma. unfold splitRuleParams, token_of.
  destruct params as [|p params].
  - by rewrite Split_lacks.
  - change (rule +:+ ":" +:+ String.concat "," (p :: params))
      with (rule +:+ String ":" (String.concat "," (p :: params))).
    rewrite Split_app_sep by done.
    rewrite Split_lacks by (by apply lacks_concat).
    cbn -[String.concat strings.Split]. by rewrite Split_concat.
Qed.

Lemma splitRuleParams_token_of_witness :
  splitRuleParams (token_of "value_between" ["1"; "10"]) = Ok ("value_between", ["1"; "10"]).
Proof.
  apply (splitRuleParams_token_of "value_between" ["1"; "10"]); reflexivity.
Defined.

(** ** Rules from struct tags *)

Lemma RulesFromStruct_loop_lookup (fields : list StructField) (rules : gmap string string)
    (k v : string) :
  RulesFromStruct_loop fields rules !! k = Some v ->
  rules !! k = Some v \/
  exists rti, rti ∈ fields /\ Tag_Get rti "json" = k /\ Tag_Get rti "validate" = v /\
              k ≠ "" /\ v ≠ "".
Proof.
  revert rules. induction fields as [|rti fields IH]; intros rules H; [by left|].
  cbn [RulesFromStruct_loop] in H.
  destruct (decide (Tag_Get rti "json" = "")) as [Hj|Hj];
    [rewrite (bool_decide_eq_true_2 _ Hj) in H|rewrite (bool_decide_eq_false_2 _ Hj) in H];
    cbn [negb andb] in H.
  { destruct (IH _ H) as [?|(r & ? & ?)]; [by left|right; exists r; by rewrite elem_of_cons; auto]. }
  destruct (decide (Tag_Get rti "validate" = "")) as [Hv|Hv];
    [rewrite (bool_decide_eq_true_2 _ Hv) in H|rewrite (bool_decide_eq_false_2 _ Hv) in H];
    cbn [negb andb] in H.
  { destruct (IH _ H) as [?|(r & ? & ?)]; [by left|right; exists r; by rewrite elem_of_cons; auto]. }
  destruct (IH _ H) as [Hins|(r & ? & ?)]; [|right; exists r; by rewrite elem_of_cons; auto].
  apply lookup_insert_Some in Hins as [[<- <-]|[_ ?]]; [|by left].
  right. exists rti. by rewrite elem_of_cons; auto.
Qed.

(** X18. Every rule string [RulesFromStruct] returns comes from a field of
    the struct: its key is the field's [json] tag and its value the
    field's [validate] tag, and neither is empty, so a field that lacks
    one of the two tags contributes nothing. *)
Theorem RulesFromStruct_sound (fields : list StructField) (rules : gmap string string)
    (k v : string) :
  RulesFromStruct (StructValue fields) = Ok rules ->
  rules !! k = Some v ->
  exists rti, rti ∈ fields /\ Tag_Get rti "json" = k /\ Tag_Get rti "validate" = v /\
              k ≠ "" /\ v ≠ "".
Proof.
  intros [= <-] H.
  by apply RulesFromStruct_loop_lookup in H as [?|?].
Qed.

Lemma RulesFromStruct_sound_witness :
  exists rti, rti ∈ sample_struct /\ Tag_Get rti "json" = "name" /\
              Tag_Get rti "validate" = "alpha_num" /\ "name" ≠ "" /\ "alpha_num" ≠ "".
Proof.
  apply (RulesFromStruct_sound sample_struct {["name" := "alpha_num"]} "name" "alpha_num").
  - vm_compute. reflexivity.
  - reflexivity.
Defined.

Lemma RulesFromStruct_loop_app (l1 l2 : list StructField) (rules : gmap string string) :
  RulesFromStruct_loop (l1 ++ l2) rules
  = RulesFromStruct_loop l2 (RulesFromStruct_loop l1 rules).
Proof.
  revert rules. induction l1 as [|rti l1 IH]; intros rules; [done|].
  cbn [app RulesFromStruct_loop]. by destruct (_ && _).
Qed.

Lemma RulesFromStruct_loop_keeps (fields : list StructField) (rules : gmap string string)
    (k : string) :
  Forall (fun rti => Tag_Get rti "json" ≠ k \/ Tag_Get rti "validate" = "") fields ->
  RulesFromStruct_loop fields rules !! k = rules !! k.
Proof.
  intros Hall. revert rules.
  induction Hall as [|rti fields Hrti _ IH]; intros rules; [done|].
  cbn [RulesFromStruct_loop].
  destruct (decide (Tag_Get rti "json" = "")) as [Hj|Hj];
    [rewrite (bool_decide_eq_true_2 _ Hj)|rewrite (bool_decide_eq_false_2 _ Hj)];
    cbn [negb andb]; [apply IH|].
  destruct (decide (Tag_Get rti "validate" = "")) as [Hv|Hv];
    [rewrite (bool_decide_eq_true_2 _ Hv)|rewrite (bool_decide_eq_false_2 _ Hv)];
    cbn [negb andb]; [apply IH|].
  rewrite IH. destruct Hrti as [Hk|Hv']; [|done]. by rewrite lookup_insert_ne.
Qed.

(** X19. A field with a non-empty [json] tag and a non-empty [validate]
    tag gives its rule string to its [json] name, unless a later field
    with both tags reuses the name: the last such field of the struct
    decides. *)
Theorem RulesFromStruct_last_tag_wins (earlier later : list StructField)
    (rti : StructField) (rules : gmap string string) :
  Tag_Get rti "json" ≠ "" ->
  Tag_Get rti "validate" ≠ "" ->
  Forall (fun other => Tag_Get other "json" ≠ Tag_Get rti "json"
                       \/ Tag_Get other "validate" = "") later ->
  RulesFromStruct (StructValue (earlier ++ rti :: later)) = Ok rules ->
  rules !! Tag_Get rti "json" = Some (Tag_Get rti "validate").
Proof.
  intros Hj Hv Hlater [= <-].
  rewrite RulesFromStruct_loop_app. cbn [RulesFromStruct_loop].
  rewrite (bool_decide_eq_false_2 _ Hj), (bool_decide_eq_false_2 _ Hv). cbn [negb andb].
  rewrite RulesFromStruct_loop_keeps by done. apply lookup_insert_eq.
Qed.

Lemma RulesFromStruct_last_tag_wins_witness :
  ({["name" := "alpha_num"]} : gmap string string)
    !! Tag_Get {| Name := "Alias"; Tag_Get := tags "name" "alpha_num" |} "json"
  = Some (Tag_Get {| Name := "Alias"; Tag_Get := tags "name" "alpha_num" |} "validate").
Proof.
  apply (RulesFromStruct_last_tag_wins
           [ {| Name := "Name"; Tag_Get := tags "name" "required|alpha" |};
             {| Name := "Age"; Tag_Get := tags "age" "" |} ] []
           {| Name := "Alias"; Tag_Get := tags "name" "alpha_num" |}
           {["name" := "alpha_num"]}).
  - discriminate.
  - discriminate.
  - constructor.
  - vm_compute. reflexivity.
Defined.

(** * Properties of config.go *)

Lemma string_length_app (a b : string) :
  String.length (a +:+ b) = String.length a + String.length b.
Proof. induction a as [|c a IH]; [done|]. rewrite string_app_cons. cbn. by rewrite IH. Qed.

Lemma string_app_assoc (a b c : string) : (a +:+ b) +:+ c = a +:+ (b +:+ c).
Proof. induction a as [|x a IH]; [done|]. by rewrite !string_app_cons, IH. Qed.

Lemma substring_prefix (a b : string) :
  String.substring 0 (String.length a) (a +:+ b) = a.
Proof.
  induction a as [|c a IH]; [by destruct b|].
  rewrite string_app_cons. cbn. by rewrite IH.
Qed.

Lemma substring_all (b : string) : String.substring 0 (String.length b) b = b.
Proof. induction b as [|c b IH]; [done|]. cbn. by rewrite IH. Qed.

Lemma substring_suffix (a b : string) :
  String.substring (String.length a) (String.length b) (a +:+ b) = b.
Proof.
  induction a as [|c a IH]; [apply substring_all|].
  rewrite string_app_cons. cbn. apply IH.
Qed.

Lemma slice_to_app (a b : string) :
  slice_to (a +:+ b) (Z.of_nat (String.length a)) = Ok a.
Proof.
  unfold slice_to. rewrite string_length_app, Nat2Z.id, substring_prefix.
  destruct (Z.leb_spec 0 (Z.of_nat (String.length a))); [|lia].
  destruct (Z.leb_spec (Z.of_nat (String.length a))
              (Z.of_nat (String.length a + String.length b))); [done|lia].
Qed.

Lemma slice_from_app (a b : string) :
  slice_from (a +:+ b) (Z.of_nat (String.length a)) = Ok b.
Proof.
  unfold slice_from. rewrite string_length_app, Nat2Z.id.
  replace (String.length a + String.length b - String.length a) with (String.length b) by lia.
  rewrite substring_suffix.
  destruct (Z.leb_spec 0 (Z.of_nat (String.length a))); [|lia].
  destruct (Z.leb_spec (Z.of_nat (String.length a))
              (Z.of_nat (String.length a + String.length b))); [done|lia].
Qed.

Lemma Index_app (sep : ascii) (a b : string) :
  lacks sep a = true ->
  strings.Index (a +:+ String sep b) sep = Z.of_nat (String.length a).
Proof.
  induction a as [|c a IH].
  - intros _. change ("" +:+ String sep b) with (String sep b).
    cbn [strings.Index]. by rewrite Ascii.eqb_refl.
  - cbn [lacks]. intros [Hc Ha]%andb_true_iff. apply negb_true_iff in Hc.
    rewrite string_app_cons. cbn [strings.Index]. rewrite Hc, IH by done.
    destruct (Z.ltb_spec (Z.of_nat (String.length a)) 0); cbn [String.length]; lia.
Qed.

Lemma skip_while_split (p : ascii -> bool) (s : string) :
  exists pre, s = pre +:+ Config.skip_while p s /\ all_bytes p pre = true.
Proof.
  induction s as [|c s (pre & Hs & Hpre)]; [by exists ""|].
  cbn [Config.skip_while]. destruct (p c) eqn:E.
  - exists (String c pre). rewrite string_app_cons, <- Hs. split; [done|].
    cbn [all_bytes]. by rewrite E.
  - by exists "".
Qed.

Lemma all_bytes_lacks (p : ascii -> bool) (sep : ascii) (s : string) :
  p sep = false -> all_bytes p s = true -> lacks sep s = true.
Proof.
  intros Hsep. induction s as [|c s IH]; [done|].
  cbn [all_bytes lacks]. intros [Hc Hs]%andb_true_iff. rewrite IH by done.
  destruct (Ascii.eqb_spec c sep) as [->|]; [congruence|done].
Qed.

(** What a line that matches the pattern looks like. *)
Lemma keyValue_MatchString_inv (s : string) :
  Config.keyValue_MatchString s = true ->
  exists c key ws rest,
    s = (String c key +:+ ws) +:+ String "=" rest /\
    Config.is_key_byte c = true /\
    lacks "=" (String c key +:+ ws) = true /\
    Config.no_line_feed rest = true.
Proof.
  unfold Config.keyValue_MatchString. destruct s as [|c s]; [discriminate|].
  intros [Hc H]%andb_true_iff.
  destruct (skip_while_split Config.is_key_byte (String c s)) as (pre1 & H1 & Hp1).
  destruct (skip_while_split Config.is_space_byte
              (Config.skip_while Config.is_key_byte (String c s))) as (pre2 & H2 & Hp2).
  destruct (Config.skip_while Config.is_space_byte _) as [|d rest]; [discriminate|].
  apply andb_true_iff in H as [Hd Hrest]. apply Ascii.eqb_eq in Hd. subst d.
  rewrite H2 in H1.
  assert (lacks "=" (pre1 +:+ pre2) = true) as Hlacks.
  { rewrite lacks_app.
    rewrite (all_bytes_lacks Config.is_key_byte "=" pre1) by done.
    by rewrite (all_bytes_lacks Config.is_space_byte "=" pre2). }
  rewrite <- string_app_assoc in H1.
  destruct (pre1 +:+ pre2) as [|c' k] eqn:E.
  - change ("" +:+ String "=" rest) with (String "=" rest) in H1.
    injection H1 as -> _. discriminate.
  - rewrite string_app_cons in H1. injection H1 as <- Hs.
    exists c, k, "", rest. rewrite string_app_nil_r.
    rewrite string_app_cons. by rewrite Hs.
Qed.

Lemma loadLine_match (s : string) (values : gmap string string) :
  Config.keyValue_MatchString s = true ->
  exists c key rest,
    s = String c key +:+ String "=" rest /\
    Config.is_key_byte c = true /\
    lacks "=" (String c key) = true /\
    Config.loadLine s values
    = Ok (<[strings.Trim (String c key) " " := strings.Trim rest " "]> values).
Proof.
  intros Hmatch. unfold Config.loadLine. rewrite Hmatch.
  apply keyValue_MatchString_inv in Hmatch as (c & key & ws & rest & -> & Hc & Hlacks & _).
  exists c, (key +:+ ws), rest.
  change (String c key +:+ ws) with (String c (key +:+ ws)) in *.
  split; [done|]. split; [done|]. split; [done|].
  set (A := String c (key +:+ ws)) in *.
  cbv zeta. rewrite Index_app by done.
  rewrite slice_to_app. cbn [mbind outcome_bind].
  replace (Z.of_nat (String.length A) + 1)%Z with (Z.of_nat (String.length (A +:+ "=")))
    by (rewrite string_length_app; cbn [String.length]; lia).
  replace (A +:+ String "=" rest) with ((A +:+ "=") +:+ rest)
    by (by rewrite string_app_assoc).
  by rewrite slice_from_app.
Qed.

Lemma loadLine_returns (s : string) (values : gmap string string) :
  returned (Config.loadLine s values).
Proof.
  destruct (Config.keyValue_MatchString s) eqn:E.
  - destruct (loadLine_match s values E) as (c & key & rest & _ & _ & _ & ->). by eexists.
  - unfold Config.loadLine. rewrite E. by eexists.
Qed.

Lemma readLoop_returns (reads : list (string * bool)) (values : gmap string string) :
  returned (Config.readLoop reads values).
Proof.
  revert values. induction reads as [|[line isPrefix] reads IH]; intros values; [by eexists|].
  cbn [Config.readLoop]. destruct isPrefix; [by eexists|].
  destruct (loadLine_returns line values) as [values' ->]. apply IH.
Qed.

(** X20. [Load] never panics: the two slice expressions are in range for
    every line the pattern matches, because such a line has an equals
    sign. *)
Theorem Load_returns (f : Config.file) : returned (Config.Load f).
Proof.
  destruct f as [err|reads]; [by eexists|]. apply readLoop_returns.
Qed.

(** X21. [Load] of a file that opens fails exactly when some line was too
    long for the read buffer, wherever the line is, and then nothing of
    what was read is returned; otherwise it returns a configuration. *)
Theorem Load_fails_iff (reads : list (string * bool)) :
  Config.Load (Config.Opened reads)
    = Ok (Config.LoadError "config file line exceeded read buffer size")
  <-> existsb snd reads = true.
Proof.
  cbn [Config.Load]. generalize (∅ : gmap string string).
  induction reads as [|[line isPrefix] reads IH]; intros values; cbn [Config.readLoop existsb snd].
  - split; discriminate.
  - destruct isPrefix; [done|]. cbn [orb].
    destruct (loadLine_returns line values) as [values' ->]. apply IH.
Qed.

Lemma Load_loaded_iff (reads : list (string * bool)) :
  (exists c, Config.Load (Config.Opened reads) = Ok (Config.Loaded c))
  <-> existsb snd reads = false.
Proof.
  cbn [Config.Load]. generalize (∅ : gmap string string).
  induction reads as [|[line isPrefix] reads IH]; intros values; cbn [Config.readLoop existsb snd].
  - split; [done|]. by eexists.
  - destruct isPrefix; cbn [orb]; [split; [by intros [? ?]|done]|].
    destruct (loadLine_returns line values) as [values' ->]. apply IH.
Qed.

Lemma keyValue_MatchString_ignored (s : string) :
  starts_with_key_byte s = false \/ lacks "=" s = true ->
  Config.keyValue_MatchString s = false.
Proof.
  intros [Hstart|Hlacks].
  - unfold Config.keyValue_MatchString. destruct s as [|c s]; [done|].
    cbn in Hstart. by rewrite Hstart.
  - destruct (Config.keyValue_MatchString s) eqn:E; [|done].
    apply keyValue_MatchString_inv in E as (c & key & ws & rest & -> & _ & _ & _).
    rewrite lacks_app in Hlacks. cbn [lacks] in Hlacks.
    rewrite Ascii.eqb_refl in Hlacks. cbn in Hlacks.
    by rewrite andb_false_r in Hlacks.
Qed.

(** X22. A line that does not start with a key byte (a comment, a blank
    line, a line that starts with a space) or that has no equals sign is
    ignored: [Load] returns what it returns without the line. *)
Theorem Load_ignores_line (before_ after_ : list (string * bool)) (line : string) :
  starts_with_key_byte line = false \/ lacks "=" line = true ->
  Config.Load (Config.Opened (before_ ++ (line, false) :: after_))
  = Config.Load (Config.Opened (before_ ++ after_)).
Proof.
  intros Hline. cbn [Config.Load]. generalize (∅ : gmap string string).
  induction before_ as [|[l p] before_ IH]; intros values; cbn [app Config.readLoop].
  - unfold Config.loadLine. by rewrite keyValue_MatchString_ignored.
  - destruct p; [done|].
    destruct (loadLine_returns l values) as [values' ->]. apply IH.
Qed.

Lemma Load_ignores_line_witness :
  Config.Load (Config.Opened ([("DB_HOST=127.0.0.1", false)]
                              ++ ("# the port", false) :: [("DB_PORT=3306", false)]))
  = Config.Load (Config.Opened ([("DB_HOST=127.0.0.1", false)] ++ [("DB_PORT=3306", false)])).
Proof.
  apply (Load_ignores_line [("DB_HOST=127.0.0.1", false)] [("DB_PORT=3306", false)]
           "# the port").
  left. reflexivity.
Defined.

Lemma skip_while_app (p : ascii -> bool) (a b : string) :
  all_bytes p a = true -> Config.skip_while p (a +:+ b) = Config.skip_while p b.
Proof.
  induction a as [|c a IH]; [done|].
  cbn [all_bytes]. intros [Hc Ha]%andb_true_iff.
  rewrite string_app_cons. cbn [Config.skip_while]. rewrite Hc. by apply IH.
Qed.

Lemma spaces_all_space (n : nat) : all_bytes Config.is_space_byte (spaces n) = true.
Proof. induction n as [|n IH]; [done|]. cbn [spaces all_bytes]. by rewrite IH. Qed.

Lemma app_sep_inj (sep : ascii) (a b x y : string) :
  lacks sep a = true -> lacks sep b = true ->
  a +:+ String sep x = b +:+ String sep y -> a = b /\ x = y.
Proof.
  revert b. induction a as [|c a IH]; intros [|d b]; cbn [lacks];
    rewrite ?string_app_cons; change ("" +:+ ?s) with s.
  - intros _ _ [= ->]. done.
  - intros _ [Hd _]%andb_true_iff [= <- _]. by rewrite Ascii.eqb_refl in Hd.
  - intros [Hc _]%andb_true_iff _ [= -> _]. by rewrite Ascii.eqb_refl in Hc.
  - intros [_ Ha]%andb_true_iff [_ Hb]%andb_true_iff [= -> H].
    destruct (IH b Ha Hb H) as [-> ->]. done.
Qed.

Lemma TrimRight_spaces (n : nat) : strings.TrimRight (spaces n) " " = "".
Proof. induction n as [|n IH]; [done|]. cbn [spaces strings.TrimRight]. by rewrite IH. Qed.

Lemma TrimRight_app_spaces (a : string) (n : nat) :
  strings.TrimRight (a +:+ spaces n) " " = strings.TrimRight a " ".
Proof.
  induction a as [|c a IH]; [apply TrimRight_spaces|].
  rewrite string_app_cons. cbn [strings.TrimRight]. by rewrite IH.
Qed.

Lemma TrimRight_lacks (a : string) :
  lacks " " a = true -> strings.TrimRight a " " = a.
Proof.
  induction a as [|c a IH]; [done|].
  cbn [lacks strings.TrimRight]. intros [Hc Ha]%andb_true_iff.
  apply negb_true_iff in Hc. rewrite IH, Hc by done. by destruct a.
Qed.

Lemma TrimLeft_lacks (a : string) :
  lacks " " a = true -> strings.TrimLeft a " " = a.
Proof.
  destruct a as [|c a]; [done|].
  cbn [lacks strings.TrimLeft]. intros [Hc Ha]%andb_true_iff.
  apply negb_true_iff in Hc. by rewrite Hc.
Qed.

(** A line that assigns a value to a key, with spaces allowed before the
    equals sign. *)
Lemma loadLine_assign (key value : string) (n : nat) (values : gmap string string) :
  all_bytes Config.is_key_byte key = true ->
  key ≠ "" ->
  Config.no_line_feed value = true ->
  Config.loadLine (key +:+ spaces n +:+ String "=" value) values
  = Ok (<[key := strings.Trim value " "]> values).
Proof.
  intros Hkey Hne Hvalue.
  assert (lacks "=" (key +:+ spaces n) = true) as Hlacks.
  { rewrite lacks_app, (all_bytes_lacks Config.is_key_byte "=" key) by done.
    by rewrite (all_bytes_lacks Config.is_space_byte "=" (spaces n))
      by (done || apply spaces_all_space). }
  assert (Config.keyValue_MatchString (key +:+ spaces n +:+ String "=" value) = true) as Hm.
  { unfold Config.keyValue_MatchString.
    destruct key as [|c key]; [done|].
    pose proof Hkey as Hall. cbn [all_bytes] in Hkey.
    apply andb_true_iff in Hkey as [Hc Hkey].
    rewrite string_app_cons. cbv beta iota. rewrite Hc. cbn [andb].
    rewrite <- string_app_cons.
    rewrite skip_while_app by done.
    replace (Config.skip_while Config.is_key_byte (spaces n +:+ String "=" value))
      with (spaces n +:+ String "=" value) by (by destruct n).
    rewrite skip_while_app by apply spaces_all_space.
    change (Config.skip_while Config.is_space_byte (String "=" value))
      with (String "=" value).
    cbv beta iota. by rewrite Ascii.eqb_refl, Hvalue. }
  destruct (loadLine_match _ values Hm) as (c & key' & rest & Heq & _ & Hl' & ->).
  rewrite <- string_app_assoc in Heq.
  apply app_sep_inj in Heq as [Hk ->]; [|done..].
  rewrite <- Hk. do 2 f_equal.
  unfold strings.Trim. rewrite TrimRight_app_spaces.
  assert (lacks " " key = true) as Hsp
    by (by apply (all_bytes_lacks Config.is_key_byte)).
  by rewrite TrimRight_lacks, TrimLeft_lacks.
Qed.

Lemma readLoop_snoc (reads : list (string * bool)) (line : string)
    (values : gmap string string) :
  existsb snd reads = false ->
  exists values',
    Config.readLoop (reads ++ [(line, false)]) values
    = values'' ← Config.loadLine line values'; Ok (Config.Loaded {| Config.values := values'' |}).
Proof.
  revert values. induction reads as [|[l p] reads IH]; intros values; cbn [existsb snd app].
  - intros _. exists values. cbn [Config.readLoop].
    by destruct (Config.loadLine line values).
  - destruct p; [discriminate|]. cbn [orb]. intros Hreads.
    cbn [Config.readLoop].
    destruct (loadLine_returns l values) as [values1 ->]. by apply IH.
Qed.

(** X23. When the last line read assigns a value to a key (key bytes,
    optional spaces, an equals sign, the value), the configuration
    [Load] returns gives the key that value with the spaces around it
    removed, whatever the earlier lines assigned: the value may hold
    equals signs, and a later assignment replaces an earlier one. *)
Theorem Load_last_assignment (reads : list (string * bool)) (key value : string) (n : nat) :
  existsb snd reads = false ->
  all_bytes Config.is_key_byte key = true ->
  key ≠ "" ->
  Config.no_line_feed value = true ->
  exists c,
    Config.Load (Config.Opened (reads ++ [(key +:+ spaces n +:+ String "=" value, false)]))
      = Ok (Config.Loaded c) /\
    Config.Get c key = strings.Trim value " ".
Proof.
  intros Hreads Hkey Hne Hvalue. cbn [Config.Load].
  destruct (readLoop_snoc reads (key +:+ spaces n +:+ String "=" value) ∅ Hreads)
    as [values' ->].
  rewrite loadLine_assign by done. eexists. split; [done|].
  unfold Config.Get. cbn. by rewrite lookup_insert_eq.
Qed.

Lemma Load_last_assignment_witness :
  exists c,
    Config.Load (Config.Opened ([("URL=old", false); ("# comment", false)]
                                ++ [("URL" +:+ spaces 1 +:+ String "=" " a=b ", false)]))
      = Ok (Config.Loaded c) /\
    Config.Get c "URL" = strings.Trim " a=b " " ".
Proof.
  apply (Load_last_assignment [("URL=old", false); ("# comment", false)] "URL" " a=b " 1).
  - reflexivity.
  - reflexivity.
  - discriminate.
  - reflexivity.
Defined.

(** X24. [Has] reports a key only when it is present with a non-empty
    value, so a key assigned the empty value counts as missing, and
    [GetWithFallback] returns the stored value exactly when [Has] holds
    and the fallback otherwise. *)
Theorem Has_GetWithFallback (c : Config.config) (key fallback : string) :
  (Config.Has c key = true
   <-> exists v, Config.values c !! key = Some v /\ v ≠ "") /\
  Config.GetWithFallback c key fallback
  = (if Config.Has c key then Config.Get c key else fallback).
Proof.
  unfold Config.Has, Config.GetWithFallback, Config.Get.
  split; [|done].
  rewrite negb_true_iff, bool_decide_eq_false.
  destruct (Config.values c !! key) as [v|]; cbn.
  - split; [by exists v|]. by intros (? & [= <-] & ?).
  - split; [done|]. by intros (? & ? & ?).
Qed.

Lemma TrimLeft_idem (s : string) (cut : ascii) :
  strings.TrimLeft (strings.TrimLeft s cut) cut = strings.TrimLeft s cut.
Proof.
  induction s as [|c s IH]; [done|].
  cbn [strings.TrimLeft]. destruct (Ascii.eqb c cut) eqn:E; [done|].
  cbn [strings.TrimLeft]. by rewrite E.
Qed.

Lemma TrimRight_cons (c cut : ascii) (s : string) :
  strings.TrimRight (String c s) cut = String c (strings.TrimRight s cut) \/
  (strings.TrimRight (String c s) cut = "" /\ Ascii.eqb c cut = true).
Proof.
  cbn [strings.TrimRight].
  destruct (strings.TrimRight s cut); [|by left].
  destruct (Ascii.eqb c cut); [by right|by left].
Qed.

Lemma TrimRight_idem (s : string) (cut : ascii) :
  strings.TrimRight (strings.TrimRight s cut) cut = strings.TrimRight s cut.
Proof.
  induction s as [|c s IH]; [done|].
  cbn [strings.TrimRight].
  destruct (strings.TrimRight s cut) as [|d t] eqn:E.
  - destruct (Ascii.eqb c cut) eqn:Ec; [done|]. cbn [strings.TrimRight]. by rewrite Ec.
  - cbn [strings.TrimRight] in *. by rewrite IH.
Qed.

Lemma TrimRight_TrimLeft (t : string) (cut : ascii) :
  strings.TrimRight t cut = t ->
  strings.TrimRight (strings.TrimLeft t cut) cut = strings.TrimLeft t cut.
Proof.
  induction t as [|c t IH]; [done|]. intros H.
  cbn [strings.TrimLeft]. destruct (Ascii.eqb c cut) eqn:E; [|done].
  apply IH. destruct (TrimRight_cons c cut t) as [H'|[H' _]]; congruence.
Qed.

Lemma Trim_trimmed (s : string) : trimmed (strings.Trim s " ") = true.
Proof.
  unfold trimmed. apply bool_decide_eq_true. unfold strings.Trim.
  rewrite (TrimRight_TrimLeft (strings.TrimRight s " ")) by apply TrimRight_idem.
  apply TrimLeft_idem.
Qed.

Lemma lacks_TrimLeft (sep cut : ascii) (s : string) :
  lacks sep s = true -> lacks sep (strings.TrimLeft s cut) = true.
Proof.
  induction s as [|c s IH]; [done|]. intros H.
  cbn [strings.TrimLeft]. destruct (Ascii.eqb c cut); [|done].
  apply IH. cbn [lacks] in H. by apply andb_true_iff in H as [_ ?].
Qed.

Lemma lacks_TrimRight (sep cut : ascii) (s : string) :
  lacks sep s = true -> lacks sep (strings.TrimRight s cut) = true.
Proof.
  induction s as [|c s IH]; [done|].
  cbn [lacks]. intros [Hc Hs]%andb_true_iff.
  destruct (TrimRight_cons c cut s) as [->|[-> _]]; [|done].
  cbn [lacks]. by rewrite Hc, IH.
Qed.

Lemma Trim_key (c : ascii) (s : string) :
  Config.is_key_byte c = true ->
  starts_with_key_byte (strings.Trim (String c s) " ") = true.
Proof.
  intros Hc. unfold strings.Trim.
  assert (Ascii.eqb c " " = false) as Hsp.
  { destruct (Ascii.eqb_spec c " ") as [->|]; [discriminate|done]. }
  destruct (TrimRight_cons c " " s) as [->|[_ ?]]; [|congruence].
  cbn [strings.TrimLeft]. by rewrite Hsp.
Qed.

(** X25. Every entry of a configuration [Load] returns has a key that
    starts with a key byte (so is not empty), holds no equals sign and
    neither starts nor ends with a space, and a value that neither starts
    nor ends with a space. *)
Theorem Load_entries (f : Config.file) (c : Config.config) (k v : string) :
  Config.Load f = Ok (Config.Loaded c) ->
  Config.values c !! k = Some v ->
  starts_with_key_byte k = true /\ lacks "=" k = true /\
  trimmed k = true /\ trimmed v = true.
Proof.
  destruct f as [err|reads]; [discriminate|]. cbn [Config.Load].
  assert (forall values : gmap string string,
            (forall k v, values !! k = Some v ->
               starts_with_key_byte k = true /\ lacks "=" k = true /\
               trimmed k = true /\ trimmed v = true) ->
            Config.readLoop reads values = Ok (Config.Loaded c) ->
            forall k v, Config.values c !! k = Some v ->
               starts_with_key_byte k = true /\ lacks "=" k = true /\
               trimmed k = true /\ trimmed v = true) as Hinv.
  { clear k v. induction reads as [|[line p] reads IH]; intros values Hvalues H;
      cbn [Config.readLoop] in H.
    - by simplify_eq.
    - destruct p; [discriminate|].
      destruct (Config.loadLine line values) as [values'|] eqn:E; [|discriminate].
      apply (IH values'); [|done].
      destruct (Config.keyValue_MatchString line) eqn:Em.
      + destruct (loadLine_match line values Em) as (c0 & key & rest & _ & Hc & Hl & E').
        rewrite E' in E. injection E as <-.
        intros k v [[<- <-]|[_ ?]]%lookup_insert_Some; [|by apply Hvalues].
        split; [by apply Trim_key|]. split; [|split; apply Trim_trimmed].
        unfold strings.Trim. by apply lacks_TrimLeft, lacks_TrimRight.
      + unfold Config.loadLine in E. rewrite Em in E. by simplify_eq. }
  intros H Hk. apply (Hinv ∅); [|done..]. intros ? ? ?. by rewrite lookup_empty in *.
Qed.

Lemma Load_entries_witness :
  starts_with_key_byte "DB_HOST" = true /\ lacks "=" "DB_HOST" = true /\
  trimmed "DB_HOST" = true /\ trimmed "127.0.0.1" = true.
Proof.
  apply (Load_entries (Config.Opened [("# database", false); ("DB_HOST = 127.0.0.1 ", false)])
           {| Config.values := {["DB_HOST" := "127.0.0.1"]} |} "DB_HOST" "127.0.0.1").
  - vm_compute. reflexivity.
  - reflexivity.
Defined.

(** A tab before the equals sign stays in the key: only spaces are
    trimmed. *)
Example loadLine_tab :
  Config.loadLine (String "K" (String "009" (String "=" "v"))) ∅
  = Ok {[String "K" (String "009" EmptyString) := "v"]}.
Proof. by vm_compute. Qed.

(** * Further properties of the evaluation engine *)

(** X26. The only panics of a run are those of the registered
    predicates: with a registry none of whose predicates panics,
    [Validate] returns for all inputs and rules, in every visiting
    order. *)
Theorem Validate_returns_if_panic_free (lib : GoLib) (reg : Registry)
    (inputs rules : gmap string string) (fields : list (string * string)) :
  panic_free reg ->
  returned (ValidateIn lib reg inputs fields) /\
  returned (Validate lib reg inputs rules).
Proof.
  intros Hreg. split; [by apply ValidateIn_returns|].
  unfold Validate.
  destruct (ValidateIn_returns lib reg Hreg inputs (map_to_list rules))
    as [[[success msgs] calls] ->].
  by eexists.
Qed.

Lemma Validate_returns_if_panic_free_witness :
  returned (ValidateIn null_lib required_only sample_inputs
              [("name", "required|min_chars:3")]) /\
  returned (Validate null_lib required_only sample_inputs {["name" := "required|min_chars:3"]}).
Proof.
  apply (Validate_returns_if_panic_free null_lib required_only sample_inputs
           {["name" := "required|min_chars:3"]} [("name", "required|min_chars:3")]).
  intros rule vFn name value inputs params H.
  cbn [required_only validators] in H.
  apply lookup_singleton_Some in H as [_ <-]. by eexists.
Defined.

(** X27. A field all of whose rule tokens name rules that the registry
    does not have is valid whatever its value, present or not: its loop
    body leaves the run unchanged. *)
Theorem unknown_rules_field_unchanged (lib : GoLib) (reg : Registry)
    (inputs : gmap string string) (fieldName fieldRulesRaw : string) (st : Run) :
  is_Some (validators reg !! "required") ->
  forallb (fun token => bool_decide (validators reg !! rule_name token = None))
          (strings.Split fieldRulesRaw "|") = true ->
  validateField lib reg inputs fieldName fieldRulesRaw st = Ok st.
Proof.
  intros Hreq Hall. apply unknown_rules_only_valid; [done|].
  apply Forall_forall. intros token Hin.
  rewrite forallb_forall in Hall.
  specialize (Hall token (proj1 (list_elem_of_In _ _) Hin)).
  apply bool_decide_eq_true in Hall. unfold rule_name in Hall.
  destruct (splitRuleParams_returns token) as [[rule params] Hparse].
  rewrite Hparse in Hall. by exists rule, params.
Qed.

Lemma unknown_rules_field_unchanged_witness :
  validateField null_lib (builtin null_lib) sample_inputs "name" "always|letters|len:3" start
  = Ok start.
Proof.
  apply (unknown_rules_field_unchanged null_lib (builtin null_lib) sample_inputs
           "name" "always|letters|len:3" start).
  - vm_compute. by eexists.
  - vm_compute. reflexivity.
Defined.

(** * A further property of config.go *)




